(** * tools/subunit-trace.py: the subunit stream tracer

    A shallow embedding of the script that traces a subunit stream: the
    name normalizer [cleanup_test_name], the duration formatter
    [get_duration], the worker resolver [find_worker], the attachment
    printer, the [Starts] observer, the outcome aggregator [show_outcome]
    with the module-level [FAILS] and [RESULTS], and the driver [main]. *)

From Stdlib Require Import ZArith Lia Ascii String.
From stdpp Require Import base tactics option list gmap strings.

Local Open Scope Z_scope.

#[local] Set Warnings "-clear-no-such-hyp".

(** ** Python strings

    A Python [str] is a [string] read character by character: each
    character of a [string] stands for the character of the text with the
    same code, so that [len] is [String.length]; the texts of this
    development are those whose characters have codes below 256.
    Indices are Python integers ([Z]). *)

Module PyStr.

Fixpoint find_char (c : ascii) (s : string) : option nat :=
  match s with
  | EmptyString => None
  | String a r => if Ascii.eqb a c then Some 0%nat else S <$> find_char c r
  end.

(** [s.find(c)] with a one-character needle: the index of the first
    occurrence, [-1] when there is none. *)
Definition find (s : string) (c : ascii) : Z :=
  match find_char c s with
  | Some n => Z.of_nat n
  | None => -1
  end.

Fixpoint take (n : nat) (s : string) : string :=
  match n, s with
  | S n', String a r => String a (take n' r)
  | _, _ => EmptyString
  end.

Fixpoint drop (n : nat) (s : string) : string :=
  match n, s with
  | S n', String _ r => drop n' r
  | _, _ => s
  end.

Definition len (s : string) : Z := Z.of_nat (String.length s).

(** [s[:i]]: a negative index counts from the end, and is clipped. *)
Definition slice_to (s : string) (i : Z) : string :=
  if i <? 0 then take (Z.to_nat (len s + i)) s else take (Z.to_nat i) s.

(** [s[i:]] *)
Definition slice_from (s : string) (i : Z) : string :=
  if i <? 0 then drop (Z.to_nat (len s + i)) s else drop (Z.to_nat i) s.

Fixpoint startswith (s p : string) : bool :=
  match p, s with
  | EmptyString, _ => true
  | String b p', String a s' => Ascii.eqb a b && startswith s' p'
  | String _ _, EmptyString => false
  end.

Fixpoint count (c : ascii) (s : string) : nat :=
  match s with
  | EmptyString => 0%nat
  | String a r => ((if Ascii.eqb a c then 1 else 0) + count c r)%nat
  end.

Fixpoint get (n : nat) (s : string) : option ascii :=
  match s, n with
  | EmptyString, _ => None
  | String a _, O => Some a
  | String _ r, S n' => get n' r
  end.

(** [c * n] for a one-character string [c] *)
Fixpoint repeat (c : ascii) (n : nat) : string :=
  match n with
  | O => EmptyString
  | S n' => String c (repeat c n')
  end.

(** [not s] *)
Definition falsy (s : string) : bool :=
  match s with EmptyString => true | _ => false end.

End PyStr.

(** ** Name normalizer *)

Definition cleanup_test_name (name : string)
    (strip_tags strip_scenarios : bool) : string :=
  let name :=
    if strip_tags then
      let tags_start := PyStr.find name "[" in
      let tags_end := PyStr.find name "]" in
      if (tags_start >? 0) && (tags_end >? tags_start) then
        let newname := PyStr.slice_to name tags_start in
        let newname := newname +:+ PyStr.slice_from name (tags_end + 1) in
        newname
      else name
    else name in
  let name :=
    if strip_scenarios then
      let tags_start := PyStr.find name "(" in
      let tags_end := PyStr.find name ")" in
      if (tags_start >? 0) && (tags_end >? tags_start) then
        let newname := PyStr.slice_to name tags_start in
        let newname := newname +:+ PyStr.slice_from name (tags_end + 1) in
        newname
      else name
    else name in
  name.

(** The call [cleanup_test_name(name)] with the default switches. *)
Definition cleanup_test_name_default (name : string) : string :=
  cleanup_test_name name true false.

(** ** Python number formatting and parsing *)

Module PyFmt.

Definition digit (d : Z) : ascii :=
  match d with
  | 0 => "0" | 1 => "1" | 2 => "2" | 3 => "3" | 4 => "4"
  | 5 => "5" | 6 => "6" | 7 => "7" | 8 => "8" | _ => "9"
  end%char.

Fixpoint digits_go (fuel : nat) (n : Z) (acc : string) : string :=
  match fuel with
  | O => acc
  | S fuel' =>
      let acc' := String (digit (n mod 10)) acc in
      if n <? 10 then acc' else digits_go fuel' (n / 10) acc'
  end.

(** The decimal digits of a non-negative integer; a number below
    [2 ^ k] has at most [k] digits, hence the fuel. *)
Definition digits (n : Z) : string :=
  digits_go (S (Z.to_nat (Z.log2 n))) n "".

(** ['%d' % n] *)
Definition pct_d (n : Z) : string :=
  if n <? 0 then String "-" (digits (- n)) else digits n.

(** ['%0<w>d' % n]: zero padding to a minimal width, after the sign *)
Definition pct_0d (w : nat) (n : Z) : string :=
  let body := digits (Z.abs n) in
  if n <? 0
  then String "-" (PyStr.repeat "0" (w - 1 - String.length body) +:+ body)
  else PyStr.repeat "0" (w - String.length body) +:+ body.

(** The value of a decimal digit, from its character code. *)
Definition digit_value (c : ascii) : option Z :=
  let code := Z.of_nat (nat_of_ascii c) in
  if (48 <=? code) && (code <=? 57) then Some (code - 48) else None.

Fixpoint parse_digits (s : string) (acc : Z) : option Z :=
  match s with
  | EmptyString => Some acc
  | String c r =>
      match digit_value c with
      | Some d => parse_digits r (10 * acc + d)
      | None => None
      end
  end.

(** [c.isspace()], for the characters with codes below 256: the ASCII
    blanks and separators, NEL and the no-break space. *)
Definition isspace (c : ascii) : bool :=
  bool_decide (nat_of_ascii c ∈ [9; 10; 11; 12; 13; 28; 29; 30; 31; 32; 133; 160]%nat).

(** The white space [int] skips around a number: below 127 what C's
    [isspace] takes, above it what [str.isspace] takes.  The separators
    with codes 28 to 31 are white space for [str.strip] and not for
    [int]. *)
Definition int_space (c : ascii) : bool :=
  bool_decide (nat_of_ascii c ∈ [9; 10; 11; 12; 13; 32; 133; 160]%nat).

Fixpoint lstrip_with (space : ascii → bool) (s : string) : string :=
  match s with
  | String c r => if space c then lstrip_with space r else s
  | EmptyString => EmptyString
  end.

Definition strip_with (space : ascii → bool) (s : string) : string :=
  String.rev (lstrip_with space (String.rev (lstrip_with space s))).

(** [s.strip()] *)
Definition strip (s : string) : string := strip_with isspace s.

(** Decimal digits in groups: single underscores are allowed between
    two digits, and nowhere else. *)
Fixpoint parse_grouped (s : string) (acc : Z) (after_digit : bool) : option Z :=
  match s with
  | EmptyString => if after_digit then Some acc else None
  | String c r =>
      match digit_value c with
      | Some d => parse_grouped r (10 * acc + d) true
      | None =>
          if Ascii.eqb c "_" && after_digit then parse_grouped r acc false
          else None
      end
  end.

(** [int(s)] on a [str] (Python 3.6 and later): surrounding white space,
    an optional sign, then decimal digits, possibly grouped by single
    underscores; [None] stands for the [ValueError].  Among the
    characters with codes below 256 the decimal digits are ['0'] to
    ['9']. *)
Definition int (s : string) : option Z :=
  let s := strip_with int_space s in
  let '(negative, body) :=
    match s with
    | String "-" r => (true, r)
    | String "+" r => (false, r)
    | _ => (false, s)
    end in
  (λ v, if negative : bool then - v else v) <$> parse_grouped body 0 false.

(** The number a string of decimal digits denotes. *)
Definition value (s : string) : option Z := parse_digits s 0.

End PyFmt.

(** ** Timestamps

    A [datetime] is an instant, in microseconds since the epoch, together
    with what its [isoformat()] method returns.  Subtracting two of them
    gives a normalized [timedelta]: [0 <= seconds < 86400] and
    [0 <= microseconds < 1000000], the sign being carried by [days]. *)

Record datetime := mk_datetime { instant : Z; isoformat : string }.

Record timedelta := mk_timedelta { days : Z; seconds : Z; microseconds : Z }.

Definition DAY_SECONDS : Z := 60 * 60 * 24.

Definition datetime_sub (e s : datetime) : timedelta :=
  let d := instant e - instant s in
  {| days := d / (86400 * 1000000);
     seconds := (d mod (86400 * 1000000)) / 1000000;
     microseconds := d mod 1000000 |}.

(** ** Duration formatter *)

Definition get_duration (timestamps : option datetime * option datetime) : string :=
  let '(start, end_) := timestamps in
  match start, end_ with
  | Some start, Some end_ =>
      let delta := datetime_sub end_ start in
      PyFmt.pct_d (days delta * DAY_SECONDS + seconds delta)
        +:+ "." +:+ PyFmt.pct_0d 6 (microseconds delta) +:+ "s"
  | _, _ => ""
  end.

(** ** Test dictionaries *)

(** An attachment ([testtools.content.Content]): the primary type of its
    content type, and the text its bytes decode to under its charset,
    [None] when they do not decode. *)
Record Content := mk_content { content_type_type : string; text : option string }.

(** The dictionary [testtools.StreamToDict] hands to its callback, with
    the keys 'id', 'tags', 'details', 'status' and 'timestamps'.  The tag
    set and the details mapping are kept in iteration order. *)
Record TestDict := mk_test {
  d_id : string;
  d_tags : list string;
  d_details : list (string * Content);
  d_status : string;
  d_timestamps : option datetime * option datetime
}.

Global Instance datetime_eq_dec : EqDecision datetime.
Proof. solve_decision. Defined.

Global Instance Content_eq_dec : EqDecision Content.
Proof. solve_decision. Defined.

Global Instance TestDict_eq_dec : EqDecision TestDict.
Proof. solve_decision. Defined.

(** The exceptions of the script and of what it calls.  [DecodeError]
    stands for what a codec raises: [UnicodeDecodeError] on bytes that do
    not decode, [LookupError] on a charset it does not know. *)
Inductive exn := ValueError | KeyError | DecodeError.

(** [detail.as_text()]: a [ValueError] unless the content type is a text
    type, then the decoded text or the error of the decoder. *)
Definition as_text (detail : Content) : string + exn :=
  if String.eqb (content_type_type detail) "text" then
    match text detail with
    | Some t => inl t
    | None => inr DecodeError
    end
  else inr ValueError.

(** What [find_worker] returns: an [int], or the string 'NaN'. *)
Inductive Worker := WorkerId (n : Z) | NaN.

Global Instance Worker_eq_dec : EqDecision Worker.
Proof. solve_decision. Defined.

Global Instance Worker_countable : Countable Worker.
Proof.
  apply (inj_countable' (λ w, match w with WorkerId n => Some n | NaN => None end)
                        (λ o, match o with Some n => WorkerId n | None => NaN end)).
  by intros [].
Defined.

(** ['%s' % worker] *)
Definition Worker_str (w : Worker) : string :=
  match w with
  | WorkerId n => PyFmt.pct_d n
  | NaN => "NaN"
  end.

(** ** Worker resolver *)

Fixpoint find_worker_tags (tags : list string) : Worker + exn :=
  match tags with
  | [] => inl NaN
  | tag :: rest =>
      if PyStr.startswith tag "worker-" then
        match PyFmt.int (PyStr.slice_from tag 7) with
        | Some n => inl (WorkerId n)
        | None => inr ValueError
        end
      else find_worker_tags rest
  end.

Definition find_worker (test : TestDict) : Worker + exn :=
  find_worker_tags (d_tags test).

(** ** Process state

    The module-level lists [FAILS] and [RESULTS], and what has been written
    to the standard output, one entry per [write] call. *)

Record World := mk_world {
  FAILS : list TestDict;
  RESULTS : gmap Worker (list TestDict);
  stdout : list string
}.

Definition fresh_world : World :=
  {| FAILS := []; RESULTS := ∅; stdout := [] |}.

(** A computation on the process state that returns or raises. *)
Definition Run (A : Type) : Type := World → (A + exn) * World.

Global Instance Run_ret : MRet Run := λ A x w, (inl x, w).

Global Instance Run_bind : MBind Run := λ A B f m w,
  match m w with
  | (inl x, w') => f x w'
  | (inr e, w') => (inr e, w')
  end.

Definition raise {A : Type} (e : exn) : Run A := λ w, (inr e, w).

(** [stream.write(s)] on the standard output *)
Definition write (s : string) : Run unit := λ w,
  (inl (), {| FAILS := FAILS w; RESULTS := RESULTS w; stdout := stdout w ++ [s] |}).

Definition write_all (l : list string) : Run unit := λ w,
  (inl (), {| FAILS := FAILS w; RESULTS := RESULTS w; stdout := stdout w ++ l |}).

(** ** Attachment printer *)

Module PyStr2.

(** [s.split(sep)[0]] *)
Fixpoint split_head (sep : ascii) (s : string) : string :=
  match s with
  | EmptyString => EmptyString
  | String a r => if Ascii.eqb a sep then EmptyString else String a (split_head sep r)
  end.

(** [s.split(sep)] for a one-character separator *)
Fixpoint split (sep : ascii) (s : string) : list string :=
  match s with
  | EmptyString => [EmptyString]
  | String a r =>
      if Ascii.eqb a sep then EmptyString :: split sep r
      else match split sep r with
           | h :: t => String a h :: t
           | [] => [String a EmptyString]
           end
  end.

End PyStr2.

Definition newline : ascii := "010"%char.
Definition nl : string := String newline EmptyString.

Definition channels : list string := ["stdout"; "stderr"].

(** [detail.content_type.type = 'text'] when it is 'test'.  The source
    does it in place; the printer is the only reader of the type of the
    attachments it has retyped, and retyping twice is retyping once, so
    the retyped attachment is local here. *)
Definition retyped (detail : Content) : Content :=
  if String.eqb (content_type_type detail) "test"
  then {| content_type_type := "text"; text := text detail |}
  else detail.

(** One attachment: the writes it causes, and the exception [as_text]
    raises, if any; [as_text] is called for a selected channel only. *)
Definition print_attachment (all_channels : bool) (item : string * Content)
    : list string * option exn :=
  let '(name, detail) := item in
  let name := PyStr2.split_head ":" name in
  let detail := retyped detail in
  if all_channels || bool_decide (name ∈ channels) then
    match as_text detail with
    | inr e => ([], Some e)
    | inl t =>
        if PyStr.falsy t then ([], None)
        else
          let title := "Captured " +:+ name +:+ ":" in
          ((nl +:+ title +:+ nl +:+ PyStr.repeat "~" (String.length title) +:+ nl)
             :: ((λ line, "    " +:+ line +:+ nl) <$> PyStr2.split newline t),
           None)
    end
  else ([], None).

(** The loop over the attachments, up to the first exception. *)
Fixpoint print_attachments_loop (all_channels : bool)
    (details : list (string * Content)) : list string * option exn :=
  match details with
  | [] => ([], None)
  | item :: rest =>
      match print_attachment all_channels item with
      | (out, Some e) => (out, Some e)
      | (out, None) =>
          let '(out', raised) := print_attachments_loop all_channels rest in
          (out ++ out', raised)
      end
  end.

(** What [print_attachments] writes, and the exception that ends it. *)
Definition print_attachments_writes (test : TestDict) (all_channels : bool) : list string :=
  fst (print_attachments_loop all_channels (d_details test)).

Definition print_attachments_raised (test : TestDict) (all_channels : bool) : option exn :=
  snd (print_attachments_loop all_channels (d_details test)).

Definition print_attachments (test : TestDict) (all_channels : bool) : Run unit := λ w,
  (match print_attachments_raised test all_channels with
   | Some e => inr e
   | None => inl ()
   end,
   {| FAILS := FAILS w; RESULTS := RESULTS w;
      stdout := stdout w ++ print_attachments_writes test all_channels |}).

(** ** Outcome aggregator *)

(** [test['details']['reason']] *)
Fixpoint details_get (key : string) (details : list (string * Content)) : option Content :=
  match details with
  | [] => None
  | (k, v) :: rest => if String.eqb k key then Some v else details_get key rest
  end.

(** [if worker not in RESULTS: RESULTS[worker] = []], then
    [RESULTS[worker].append(test)] *)
Definition record_result (worker : Worker) (test : TestDict) : Run unit := λ w,
  let results :=
    match RESULTS w !! worker with
    | None => <[worker := []]> (RESULTS w)
    | Some _ => RESULTS w
    end in
  let results := alter (λ bucket, bucket ++ [test]) worker results in
  (inl (), {| FAILS := FAILS w; RESULTS := results; stdout := stdout w |}).

(** [FAILS.append(test)] *)
Definition record_fail (test : TestDict) : Run unit := λ w,
  (inl (), {| FAILS := FAILS w ++ [test]; RESULTS := RESULTS w; stdout := stdout w |}).

Definition lift_worker (r : Worker + exn) : Run Worker :=
  match r with
  | inl x => mret x
  | inr e => raise e
  end.

(** [show_outcome(stream, test)] with the standard output for [stream];
    the final [stream.flush()] leaves the writes as they are. *)
Definition show_outcome (test : TestDict) : Run unit :=
  let status := d_status test in
  if String.eqb status "exists" then mret () else
  worker ← lift_worker (find_worker test);
  let name := cleanup_test_name_default (d_id test) in
  let duration := get_duration (d_timestamps test) in
  record_result worker test;;
  if String.eqb name "process-returncode" then mret () else
  if String.eqb status "success" then
    write ("{" +:+ Worker_str worker +:+ "} " +:+ name +:+ " [" +:+ duration
             +:+ "] ... ok" +:+ nl);;
    print_attachments test false
  else if String.eqb status "fail" then
    record_fail test;;
    write ("{" +:+ Worker_str worker +:+ "} " +:+ name +:+ " [" +:+ duration
             +:+ "] ... FAILED" +:+ nl);;
    print_attachments test true
  else if String.eqb status "skip" then
    match details_get "reason" (d_details test) with
    | None => raise KeyError
    | Some reason =>
        match as_text reason with
        | inl reason_text =>
            write ("{" +:+ Worker_str worker +:+ "} " +:+ name +:+ " ... SKIPPED: "
                     +:+ reason_text +:+ nl)
        | inr e => raise e
        end
    end
  else
    write ("{" +:+ Worker_str worker +:+ "} " +:+ name +:+ " [" +:+ duration
             +:+ "] ... " +:+ d_status test +:+ nl);;
    print_attachments test true.

(** ** Events

    One decoded notification: the arguments of [StreamResult.status].
    An absent argument is [None].  The bytes of an attachment are given
    by the text they decode to under the charset of their MIME type, so
    the streams described here are those whose attachments decode; on
    bytes that do not, [as_text] raises where it would return the text. *)

Record Event := mk_event {
  test_id : option string;
  test_status : option string;
  test_tags : option (list string);
  runnable : bool;
  file_name : option string;
  file_bytes : option string;
  eof : bool;
  mime_type : option string;
  route_code : option string;
  timestamp : option datetime
}.

(** [not x] for an optional string: [None] and the empty string are false. *)
Definition falsy_opt (x : option string) : bool :=
  match x with
  | None => true
  | Some s => PyStr.falsy s
  end.

(** [mimeparse.parse_mime_type(mime)[0]]: the primary type, what stands
    before the slash of the full type.  [None] stands for the
    [ValueError] of the parse: every parameter after a semicolon needs
    its ['='], and the full type exactly one slash. *)
Definition mime_type_primary (mime : string) : option string :=
  let parts := PyStr2.split ";" mime in
  let full_type := PyFmt.strip (hd EmptyString parts) in
  let full_type := if String.eqb full_type "*" then "*/*" else full_type in
  if forallb (λ param, negb (Nat.eqb (PyStr.count "=" param) 0)) (tl parts)
     && bool_decide (PyStr.count "/" full_type = 1%nat)
  then Some (PyFmt.strip (PyStr2.split_head "/" full_type))
  else None.

(** [Content(content_type, lambda: chunks).as_text()] for a content type
    parsed from a MIME type: a [ValueError] unless the primary type is
    'text', then the decoded chunks put together. *)
Definition content_as_text (mime : string) (chunks : list string) : string + exn :=
  match mime_type_primary mime with
  | Some primary =>
      if String.eqb primary "text" then inl (foldr String.append EmptyString chunks)
      else inr ValueError
  | None => inr ValueError
  end.

(** ** Start tracker *)

(** What [Starts] writes to its output, by call site. *)
Inductive StartsWrite :=
| WriteText (text : string)
| WriteNewline
| WriteStart (timestr worker test_id : string).

Definition render (o : StartsWrite) : string :=
  match o with
  | WriteText text => text
  | WriteNewline => nl
  | WriteStart timestr worker test_id =>
      timestr +:+ ": " +:+ worker +:+ test_id +:+ " [start]" +:+ nl
  end.

Record Starts := mk_starts {
  _neednewline : bool;
  _emitted : gset string
}.

(** [Starts.startTestRun] *)
Definition Starts_startTestRun : Starts :=
  {| _neednewline := false; _emitted := ∅ |}.

(** The last character of a text is in ['\r\n']. *)
Definition ends_with_newline (text : string) : bool :=
  match String.rev text with
  | String c _ => Ascii.eqb c "013" || Ascii.eqb c "010"
  | EmptyString => false
  end.

(** The label the loop over the tags leaves in [worker]. *)
Fixpoint worker_label (tags : list string) (worker : string) : string :=
  match tags with
  | [] => worker
  | tag :: rest =>
      worker_label rest
        (if PyStr.startswith tag "worker-"
         then "(" +:+ PyStr.slice_from tag 7 +:+ ") "
         else worker)
  end.

(** The text of a free attachment, as [Starts.status] renders it. *)
Definition Starts_text (ev : Event) : string + exn :=
  let mime_type :=
    if falsy_opt (mime_type ev)
       || bool_decide (mime_type ev = Some "test/plain;charset=utf8")
    then "text/plain; charset=utf-8"
    else default "" (mime_type ev) in
  content_as_text mime_type [default "" (file_bytes ev)].

(** The exception that ends a call of [Starts.status], if any: the one
    [as_text] raises on a free attachment, before the tracker has written
    or recorded anything. *)
Definition Starts_raised (ev : Event) : option exn :=
  if falsy_opt (test_id ev) && negb (falsy_opt (file_bytes ev)) then
    match Starts_text ev with
    | inr e => Some e
    | inl _ => None
    end
  else None.

(** [Starts.status]: the new state of the observer and its writes; a
    call that raises leaves both as they are. *)
Definition Starts_status (self : Starts) (ev : Event) : Starts * list StartsWrite :=
  if falsy_opt (test_id ev) then
    if falsy_opt (file_bytes ev) then (self, [])
    else
      match Starts_text ev with
      | inr _ => (self, [])
      | inl text =>
          let self :=
            if negb (PyStr.falsy text) && negb (ends_with_newline text)
            then {| _neednewline := true; _emitted := _emitted self |}
            else self in
          (self, [WriteText text])
      end
  else
    let id := default "" (test_id ev) in
    if bool_decide (test_status ev = Some "inprogress")
       && bool_decide (id ∉ _emitted self) then
      let '(self, out) :=
        if _neednewline self
        then ({| _neednewline := false; _emitted := _emitted self |}, [WriteNewline])
        else (self, []) in
      let worker := worker_label (default [] (test_tags ev)) "" in
      let out :=
        match timestamp ev with
        | Some ts => let timestr := isoformat ts in out
        | None => let timestr := "" in out ++ [WriteStart timestr worker id]
        end in
      ({| _neednewline := _neednewline self; _emitted := {[ id ]} ∪ _emitted self |}, out)
    else (self, []).

(** The observer over a whole run: [startTestRun], then every event.
    A call that raises leaves the observer as it was; [run] below stops
    at it, here the events that follow are still handed over. *)
Fixpoint Starts_run_from (self : Starts) (evs : list Event) : Starts * list StartsWrite :=
  match evs with
  | [] => (self, [])
  | ev :: rest =>
      let '(self, out) := Starts_status self ev in
      let '(self, out') := Starts_run_from self rest in
      (self, out ++ out')
  end.

Definition Starts_run (evs : list Event) : Starts * list StartsWrite :=
  Starts_run_from Starts_startTestRun evs.

(** ** The observers of [testtools]

    [main] wires [Starts] and [show_outcome] to three classes of the
    [testtools] library: [StreamToDict], which folds the events of one
    test into a dictionary and hands it to a callback when the test
    reaches a status other than 'inprogress'; [StreamSummary], a
    [StreamToDict] whose callback tallies the run; and [CopyStreamResult],
    which forwards every call to each of its targets in turn. *)

Definition Key : Type := string * option string.

Definition InProgress : Type := list (Key * TestDict).

Fixpoint inprogress_get (key : Key) (m : InProgress) : option TestDict :=
  match m with
  | [] => None
  | (k, v) :: rest => if bool_decide (k = key) then Some v else inprogress_get key rest
  end.

Fixpoint inprogress_set (key : Key) (v : TestDict) (m : InProgress) : InProgress :=
  match m with
  | [] => [(key, v)]
  | (k, v') :: rest =>
      if bool_decide (k = key) then (k, v) :: rest
      else (k, v') :: inprogress_set key v rest
  end.

Fixpoint inprogress_pop (key : Key) (m : InProgress) : InProgress :=
  match m with
  | [] => []
  | (k, v) :: rest =>
      if bool_decide (k = key) then rest else (k, v) :: inprogress_pop key rest
  end.

(** The primary type of a MIME type: what precedes the first ['/'].
    On a MIME type that does not parse [StreamToDict.status] raises;
    the streams described here have none. *)
Definition mime_primary (mime : string) : string := PyStr2.split_head "/" mime.

(** [details[file_name]] gets one more chunk; a new attachment takes its
    content type from the event. *)
Fixpoint details_append (name mime chunk : string) (details : list (string * Content))
    : list (string * Content) :=
  match details with
  | [] => [(name, {| content_type_type := mime_primary mime; text := Some chunk |})]
  | (k, c) :: rest =>
      if String.eqb k name
      then (k, {| content_type_type := content_type_type c;
                  text := (λ t, t +:+ chunk) <$> text c |}) :: rest
      else (k, c) :: details_append name mime chunk rest
  end.

(** [StreamToDict.status]: the dictionaries in progress, and the one
    handed to the callback, if any. *)
Definition StreamToDict_status (inprogress : InProgress) (ev : Event)
    : InProgress * option TestDict :=
  match test_id ev with
  | None => (inprogress, None)
  | Some id =>
      let key := (id, route_code ev) in
      let case :=
        match inprogress_get key inprogress with
        | Some case => case
        | None => {| d_id := id; d_tags := []; d_details := []; d_status := "unknown";
                     d_timestamps := (timestamp ev, None) |}
        end in
      let case :=
        {| d_id := d_id case;
           d_tags := match test_tags ev with Some tags => tags | None => d_tags case end;
           d_details :=
             match file_name ev with
             | Some name =>
                 details_append name
                   (default "application/octet-stream" (mime_type ev))
                   (default "" (file_bytes ev)) (d_details case)
             | None => d_details case
             end;
           d_status := match test_status ev with Some s => s | None => d_status case end;
           d_timestamps := (fst (d_timestamps case), timestamp ev) |} in
      if bool_decide (test_status ev ≠ None ∧ test_status ev ≠ Some "inprogress")
      then (inprogress_pop key inprogress, Some case)
      else (inprogress_set key case inprogress, None)
  end.

(** [StreamToDict.stopTestRun]: the tests still in progress, in the order
    [popitem] returns them (last inserted first), their end time reset. *)
Definition StreamToDict_stopTestRun (inprogress : InProgress) : list TestDict :=
  (λ kv, let case := snd kv in
         {| d_id := d_id case; d_tags := d_tags case; d_details := d_details case;
            d_status := d_status case;
            d_timestamps := (fst (d_timestamps case), None) |})
    <$> reverse inprogress.

Record StreamSummary := mk_summary {
  s_inprogress : InProgress;
  failures : list TestDict;
  errors : list TestDict;
  testsRun : Z;
  skipped : list TestDict;
  expectedFailures : list TestDict;
  unexpectedSuccesses : list TestDict
}.

Definition StreamSummary_startTestRun : StreamSummary :=
  {| s_inprogress := []; failures := []; errors := []; testsRun := 0;
     skipped := []; expectedFailures := []; unexpectedSuccesses := [] |}.

Definition status_in (s : string) (l : list string) : bool := bool_decide (s ∈ l).

(** [StreamSummary._gather_test]: the handler table by status; a status
    missing from the table is a [KeyError]. *)
Definition StreamSummary_gather_test (self : StreamSummary) (test : TestDict)
    : StreamSummary * option exn :=
  let status := d_status test in
  if String.eqb status "exists" then (self, None) else
  let counted (errors skipped xfails uxsuccesses : list TestDict) :=
    {| s_inprogress := s_inprogress self; failures := failures self;
       errors := errors; testsRun := testsRun self + 1; skipped := skipped;
       expectedFailures := xfails; unexpectedSuccesses := uxsuccesses |} in
  let e := errors self in
  let s := skipped self in
  let x := expectedFailures self in
  let u := unexpectedSuccesses self in
  if String.eqb status "success" then (counted e s x u, None)
  else if String.eqb status "skip" then (counted e (s ++ [test]) x u, None)
  else if String.eqb status "fail" then (counted (e ++ [test]) s x u, None)
  else if String.eqb status "xfail" then (counted e s (x ++ [test]) u, None)
  else if String.eqb status "uxsuccess" then (counted e s x (u ++ [test]), None)
  else if status_in status ["unknown"; "inprogress"]
  then (counted (e ++ [test]) s x u, None)
  else (counted e s x u, Some KeyError).

Definition with_inprogress (self : StreamSummary) (m : InProgress) : StreamSummary :=
  {| s_inprogress := m; failures := failures self; errors := errors self;
     testsRun := testsRun self; skipped := skipped self;
     expectedFailures := expectedFailures self;
     unexpectedSuccesses := unexpectedSuccesses self |}.

Definition StreamSummary_status (self : StreamSummary) (ev : Event)
    : StreamSummary * option exn :=
  let '(m, done) := StreamToDict_status (s_inprogress self) ev in
  let self := with_inprogress self m in
  match done with
  | Some test => StreamSummary_gather_test self test
  | None => (self, None)
  end.

Fixpoint StreamSummary_gather_all (self : StreamSummary) (tests : list TestDict)
    : StreamSummary * option exn :=
  match tests with
  | [] => (self, None)
  | test :: rest =>
      match StreamSummary_gather_test self test with
      | (self, None) => StreamSummary_gather_all self rest
      | (self, Some e) => (self, Some e)
      end
  end.

Definition StreamSummary_stopTestRun (self : StreamSummary) : StreamSummary * option exn :=
  StreamSummary_gather_all (with_inprogress self [])
    (StreamToDict_stopTestRun (s_inprogress self)).

Definition wasSuccessful (self : StreamSummary) : bool :=
  bool_decide (failures self = []) && bool_decide (errors self = []).

(** ** Run driver *)

(** The three targets of the [CopyStreamResult] that [main] builds. *)
Record Observers := mk_observers {
  starts : Starts;
  outcomes : InProgress;
  summary : StreamSummary
}.

(** [result.startTestRun()] *)
Definition startTestRun : Observers :=
  {| starts := Starts_startTestRun; outcomes := [];
     summary := StreamSummary_startTestRun |}.

(** [show_outcome] on each dictionary in turn, up to the first exception. *)
Fixpoint show_outcomes (tests : list TestDict) : Run unit :=
  match tests with
  | [] => mret ()
  | test :: rest => show_outcome test;; show_outcomes rest
  end.

(** [result.status(...)]: one event, handed to [starts], [outcomes] and
    [summary] in this order; an exception ends the call. *)
Definition status (obs : Observers) (ev : Event) (w : World)
    : option exn * Observers * World :=
  match Starts_raised ev with
  | Some e => (Some e, obs, w)
  | None =>
      let '(st, out) := Starts_status (starts obs) ev in
      let '(_, w) := write_all (render <$> out) w in
      let '(m, done) := StreamToDict_status (outcomes obs) ev in
      let obs := {| starts := st; outcomes := m; summary := summary obs |} in
      match show_outcomes (option_list done) w with
      | (inr e, w) => (Some e, obs, w)
      | (inl _, w) =>
          let '(s, e) := StreamSummary_status (summary obs) ev in
          (e, {| starts := st; outcomes := m; summary := s |}, w)
      end
  end.

(** [stream.run(result)]: every decoded event, up to the first exception. *)
Fixpoint run (obs : Observers) (evs : list Event) (w : World)
    : option exn * Observers * World :=
  match evs with
  | [] => (None, obs, w)
  | ev :: rest =>
      match status obs ev w with
      | (None, obs, w) => run obs rest w
      | r => r
      end
  end.

(** [result.stopTestRun()]: [outcomes] reports the tests still in
    progress through [show_outcome], then [summary] tallies its own. *)
Definition stopTestRun (obs : Observers) (w : World)
    : option exn * Observers * World :=
  match show_outcomes (StreamToDict_stopTestRun (outcomes obs)) w with
  | (inr e, w) =>
      (Some e, {| starts := starts obs; outcomes := []; summary := summary obs |}, w)
  | (inl _, w) =>
      let '(s, e) := StreamSummary_stopTestRun (summary obs) in
      (e, {| starts := starts obs; outcomes := []; summary := s |}, w)
  end.

(** [main()]: the exit status it returns, or the exception that escapes
    it, and the process state it leaves. *)
Definition main (evs : list Event) : Run Z := λ w,
  let obs := startTestRun in
  let '(raised, obs, w) := run obs evs w in
  let '(raised_finally, obs, w) := stopTestRun obs w in
  match raised_finally, raised with
  | Some e, _ => (inr e, w)
  | None, Some e => (inr e, w)
  | None, None => (inl (if wasSuccessful (summary obs) then 0 else 1), w)
  end.

(** ** Reference readings of the name normalizer *)

(** The string without the positions [i] to [j], both included. *)
Definition cut (i j : nat) (s : string) : string :=
  PyStr.take i s +:+ PyStr.drop (S j) s.

(** One stripping rule, on the first opening and the first closing
    delimiter of the string. *)
Definition strip_span (o c : ascii) (s : string) : string :=
  match PyStr.find_char o s, PyStr.find_char c s with
  | Some i, Some j => if (0 <? i)%nat && (i <? j)%nat then cut i j s else s
  | _, _ => s
  end.

(** The string holds the opening delimiter at [i] and the closing one at
    a later position [j]. *)
Definition has_span (o c : ascii) (s : string) (i j : nat) : Prop :=
  PyStr.get i s = Some o ∧ PyStr.get j s = Some c ∧ (i < j)%nat.

(** The tag rule as the specification words it: a string that holds a
    ['['] before a later [']'] loses such a span. *)
Definition tag_rule_as_stated (name : string) : Prop :=
  (∃ i j, has_span "[" "]" name i j) →
  ∃ i j, has_span "[" "]" name i j ∧ cleanup_test_name name true false = cut i j name.

(** Each of the four delimiters occurs at most once. *)
Definition single_delimiters (name : string) : Prop :=
  (PyStr.count "[" name ≤ 1)%nat ∧ (PyStr.count "]" name ≤ 1)%nat ∧
  (PyStr.count "(" name ≤ 1)%nat ∧ (PyStr.count ")" name ≤ 1)%nat.

(** ** Reference readings of the outcome aggregator *)

(** The sum of the sizes of the per-worker buckets. *)
Definition bucket_total (results : gmap Worker (list TestDict)) : nat :=
  map_fold (λ _ bucket n, (length bucket + n)%nat) 0%nat results.

Definition is_exists (test : TestDict) : bool := String.eqb (d_status test) "exists".

Definition is_returncode (test : TestDict) : bool :=
  String.eqb (d_id test) "process-returncode".

(** The bucket invariant as the specification words it: the buckets hold
    the records that are neither 'exists' nor 'process-returncode'. *)
Definition buckets_as_stated (tests : list TestDict) : Prop :=
  ∀ w, show_outcomes tests fresh_world = (inl (), w) →
       bucket_total (RESULTS w)
       = (length tests
          - length (List.filter (λ t, is_exists t || is_returncode t) tests))%nat.

(** ['{%s} %s [%s] ... <word>\n'] *)
Definition outcome_line (worker : Worker) (name duration outcome_word : string) : string :=
  "{" +:+ Worker_str worker +:+ "} " +:+ name +:+ " [" +:+ duration
    +:+ "] ... " +:+ outcome_word +:+ nl.

Definition outcome_word (status : string) : string :=
  if String.eqb status "success" then "ok"
  else if String.eqb status "fail" then "FAILED"
  else status.

(** What a record leaves behind when it is reported by status. *)
Definition reported (test : TestDict) (worker : Worker) (w w' : World) : Prop :=
  stdout w' = stdout w
    ++ outcome_line worker (cleanup_test_name_default (d_id test))
         (get_duration (d_timestamps test)) (outcome_word (d_status test))
       :: print_attachments_writes test (negb (String.eqb (d_status test) "success")) ∧
  FAILS w' = FAILS w ++ (if String.eqb (d_status test) "fail" then [test] else []).

(** The report by status as the specification words it, for every
    finalized record whose identifier is not 'process-returncode'. *)
Definition outcome_as_stated (test : TestDict) : Prop :=
  d_status test ≠ "inprogress" → d_id test ≠ "process-returncode" →
  d_status test ≠ "exists" → d_status test ≠ "skip" →
  ∀ w, ∃ worker w', show_outcome test w = (inl (), w') ∧ reported test worker w w'.

(** The standard-channel attachments of a record. *)
Definition standard_details (test : TestDict) : list (string * Content) :=
  List.filter (λ item, bool_decide (PyStr2.split_head ":" (fst item) ∈ channels))
    (d_details test).

(** The first tag with the prefix 'worker-' has a remainder that [int]
    rejects. *)
Definition bad_worker_tag (test : TestDict) : Prop :=
  ∃ pre tag post,
    d_tags test = pre ++ tag :: post ∧
    Forall (λ t, PyStr.startswith t "worker-" = false) pre ∧
    PyStr.startswith tag "worker-" = true ∧
    PyFmt.int (PyStr.slice_from tag 7) = None.

(** The abort on a bad worker tag as stated, for every such record. *)
Definition aborts_as_stated (test : TestDict) : Prop :=
  bad_worker_tag test →
  find_worker test = inr ValueError ∧
  ∀ w, show_outcome test w = (inr ValueError, w).

(** ** Reference readings of the run *)

(** What a run adds to the process state: the failure list and the
    output grow at the end, and so does each bucket. *)
Definition World_app (w d : World) : World :=
  {| FAILS := FAILS w ++ FAILS d;
     RESULTS := union_with (λ a b, Some (a ++ b)) (RESULTS w) (RESULTS d);
     stdout := stdout w ++ stdout d |}.

(** A second run of [main] in the process of a first one; its output is
    read from an empty transcript. *)
Definition second_run (evs1 evs2 : list Event) : (Z + exn) * World :=
  let '(_, w1) := main evs1 fresh_world in
  main evs2 {| FAILS := FAILS w1; RESULTS := RESULTS w1; stdout := [] |}.

(** Two runs do not interfere. *)
Definition runs_independent (evs1 evs2 : list Event) : Prop :=
  second_run evs1 evs2 = main evs2 fresh_world.

(** The dictionaries [StreamToDict] hands out during the events, and the
    tests it is left with. *)
Fixpoint emitted (m : InProgress) (evs : list Event) : list TestDict * InProgress :=
  match evs with
  | [] => ([], m)
  | ev :: rest =>
      let '(m, done) := StreamToDict_status m ev in
      let '(l, m) := emitted m rest in
      (option_list done ++ l, m)
  end.

(** Every dictionary of a run: those handed out during the events, then
    the ones flushed by [stopTestRun]. *)
Definition records (evs : list Event) : list TestDict :=
  let '(l, m) := emitted [] evs in l ++ StreamToDict_stopTestRun m.

(** The statuses [StreamSummary] files under its errors. *)
Definition counts_as_error (test : TestDict) : bool :=
  status_in (d_status test) ["fail"; "unknown"; "inprogress"].

(** The exit status as the specification words it. *)
Definition exit_as_stated (evs : list Event) : Prop :=
  ∀ r w, main evs fresh_world = (inl r, w) →
         (r = 0 ↔ FAILS w = []) ∧ (r ≠ 0 → r = 1).

(** The number of start lines the tracker wrote for an identifier. *)
Definition is_start_for (id : string) (o : StartsWrite) : bool :=
  match o with
  | WriteStart _ _ id' => String.eqb id' id
  | _ => false
  end.

Definition start_lines (id : string) (out : list StartsWrite) : nat :=
  length (List.filter (is_start_for id) out).

(** A computation adds to the process state without reading it: from any
    state it returns what it returns from the fresh one, and leaves the
    state extended by what it leaves from the fresh one. *)
Definition framed {A : Type} (m : Run A) : Prop :=
  ∀ w, m w = (fst (m fresh_world), World_app w (snd (m fresh_world))).

Definition framed_step (f : World → option exn * Observers * World) : Prop :=
  ∀ w, f w = (fst (f fresh_world), World_app w (snd (f fresh_world))).

(** ** Sample inputs *)

Definition event (id status : option string) (tags : option (list string))
    (ts : option datetime) : Event :=
  {| test_id := id; test_status := status; test_tags := tags; runnable := true;
     file_name := None; file_bytes := None; eof := false; mime_type := None;
     route_code := None; timestamp := ts |}.

Definition at_second_1 : datetime :=
  {| instant := 1000000; isoformat := "1970-01-01T00:00:01+00:00" |}.

Definition at_second_2 : datetime :=
  {| instant := 2000000; isoformat := "1970-01-01T00:00:02+00:00" |}.

(** The 'inprogress' event of the end-to-end scenario. *)
Definition test_a_inprogress : Event :=
  event (Some "test_a") (Some "inprogress") (Some ["worker-0"]) (Some at_second_1).

Definition test_a_success : Event :=
  event (Some "test_a") (Some "success") (Some ["worker-0"]) (Some at_second_2).

Definition test_of (id status : string) (tags : list string) : TestDict :=
  {| d_id := id; d_tags := tags; d_details := []; d_status := status;
     d_timestamps := (None, None) |}.

(** ** Failure summary *)

Definition rule_line : string :=
  nl +:+ "==============================" +:+ nl.

(** The body of the loop of [print_fails], for the failures in turn. *)
Fixpoint print_fails_loop (fails : list TestDict) : Run unit :=
  match fails with
  | [] => mret ()
  | f :: rest =>
      write (nl +:+ d_id f +:+ nl);;
      write (PyStr.repeat "-" (String.length (d_id f)) +:+ nl);;
      print_attachments f true;;
      print_fails_loop rest
  end.

(** [print_fails(stream)] with the standard output for [stream] *)
Definition print_fails : Run unit := λ w,
  match FAILS w with
  | [] => (inl (), w)
  | _ :: _ =>
      (write rule_line;;
       write ("Failed " +:+ PyFmt.pct_d (Z.of_nat (length (FAILS w)))
                +:+ " tests - output below:");;
       write rule_line;;
       print_fails_loop (FAILS w);;
       write nl) w
  end.

(** ** Further reference readings *)

(** Every character of a string passes a test. *)
Fixpoint str_forall (p : ascii → bool) (s : string) : bool :=
  match s with
  | EmptyString => true
  | String a r => p a && str_forall p r
  end.

(** [sep.join(l)] *)
Fixpoint join (sep : string) (l : list string) : string :=
  match l with
  | [] => EmptyString
  | [x] => x
  | x :: rest => x +:+ sep +:+ join sep rest
  end.

Definition has_worker_prefix (tag : string) : bool := PyStr.startswith tag "worker-".

(** A record the failure list takes: status 'fail' and a normalized name
    other than 'process-returncode'. *)
Definition counted_fail (test : TestDict) : bool :=
  String.eqb (d_status test) "fail"
  && negb (String.eqb (cleanup_test_name_default (d_id test)) "process-returncode").

(** An attachment of a channel the printer looks at. *)
Definition selected (all_channels : bool) (item : string * Content) : bool :=
  all_channels || bool_decide (PyStr2.split_head ":" (fst item) ∈ channels).

(** An event that makes the tracker mark an identifier. *)
Definition starts_test (id : string) (ev : Event) : bool :=
  bool_decide (test_id ev = Some id) && negb (PyStr.falsy id)
  && bool_decide (test_status ev = Some "inprogress").

(** The first event of a stream that starts a given test. *)
Definition first_start (id : string) (evs : list Event) : option Event :=
  List.find (starts_test id) evs.

Definition is_newline_write (o : StartsWrite) : bool :=
  match o with WriteNewline => true | _ => false end.

(** A free text that does not end its last line. *)
Definition is_open_text (o : StartsWrite) : bool :=
  match o with
  | WriteText text => negb (PyStr.falsy text) && negb (ends_with_newline text)
  | _ => false
  end.

(** A record without attachments on which neither [show_outcome] nor
    the summary raises: its worker resolves, it is not a skip (a skip
    needs its 'reason' attachment) unless its normalized name is
    'process-returncode', and its status is one the summary has a
    handler for. *)
Definition well_formed (test : TestDict) : bool :=
  String.eqb (d_status test) "exists"
  || (match find_worker test with inl _ => true | inr _ => false end
      && bool_decide (d_details test = [])
      && (negb (String.eqb (d_status test) "skip")
          || String.eqb (cleanup_test_name_default (d_id test)) "process-returncode")
      && status_in (d_status test)
           ["success"; "skip"; "fail"; "xfail"; "uxsuccess"; "unknown"; "inprogress"]).

(** An event that carries no attachment: neither a file name nor
    bytes. *)
Definition no_attachment (ev : Event) : bool :=
  bool_decide (file_name ev = None) && falsy_opt (file_bytes ev).

(** What the failure summary is expected to write for a list of failed
    records: nothing for an empty list; otherwise the count between two
    rules, then for each record its identifier, a rule of dashes as long
    as the identifier and all its attachments, then an empty line. *)
Definition fail_block (f : TestDict) : list string :=
  [nl +:+ d_id f +:+ nl; PyStr.repeat "-" (String.length (d_id f)) +:+ nl]
    ++ print_attachments_writes f true.

Definition fails_summary (fails : list TestDict) : list string :=
  match fails with
  | [] => []
  | _ :: _ =>
      [rule_line;
       "Failed " +:+ PyFmt.pct_d (Z.of_nat (length fails)) +:+ " tests - output below:";
       rule_line]
        ++ concat (fail_block <$> fails) ++ [nl]
  end.

(** The title of the block the printer writes for an attachment. *)
Definition attachment_title (name : string) : string :=
  "Captured " +:+ PyStr2.split_head ":" name +:+ ":".

(** The number of writes of a kind. *)
Definition count_writes (p : StartsWrite → bool) (out : list StartsWrite) : nat :=
  length (List.filter p out).

(** * Theorems *)

(** ** Strings *)

(** Case analysis on every comparison of naturals in the goal. *)
Ltac case_nat_cmp :=
  repeat match goal with
    | |- context [(?a <? ?b)%nat] => destruct (Nat.ltb_spec a b)
    | |- context [(?a <=? ?b)%nat] => destruct (Nat.leb_spec a b)
    end;
  simpl; try done; try lia; try (f_equal; lia).

Section PyStrFacts.

Import PyStr.

Lemma app_cons a s t : String a s +:+ t = String a (s +:+ t).
Proof. reflexivity. Qed.

Lemma app_empty_l t : EmptyString +:+ t = t.
Proof. reflexivity. Qed.

Lemma app_empty_r s : s +:+ EmptyString = s.
Proof. induction s as [|a s IH]; [done|]. by rewrite app_cons, IH. Qed.

Lemma str_app_assoc s t u : (s +:+ t) +:+ u = s +:+ (t +:+ u).
Proof. induction s as [|a s IH]; [done|]. by rewrite !app_cons, IH. Qed.

Lemma str_length_app s t :
  String.length (s +:+ t) = (String.length s + String.length t)%nat.
Proof. induction s as [|a s IH]; [done|]. rewrite app_cons. simpl. by rewrite IH. Qed.

Lemma take_app_length u r : take (String.length u) (u +:+ r) = u.
Proof. induction u as [|a u IH]; [by destruct r|]. rewrite app_cons. simpl. by rewrite IH. Qed.

Lemma drop_app_length u r : drop (String.length u) (u +:+ r) = r.
Proof. induction u as [|a u IH]; [by destruct r|]. rewrite app_cons. by simpl. Qed.

Lemma str_length_take n s : String.length (take n s) = (n `min` String.length s)%nat.
Proof.
  revert n. induction s as [|a s IH]; intros [|n]; simpl; try done.
  by rewrite IH.
Qed.

Lemma str_length_drop n s : String.length (drop n s) = (String.length s - n)%nat.
Proof.
  revert n. induction s as [|a s IH]; intros [|n]; simpl; try done.
Qed.

Lemma get_lt n s c : get n s = Some c → (n < String.length s)%nat.
Proof.
  revert n. induction s as [|a s IH]; intros [|n]; simpl; try done; [lia|].
  intros ?%IH. lia.
Qed.

Lemma find_char_lt c s p : find_char c s = Some p → (p < String.length s)%nat.
Proof.
  revert p. induction s as [|a s IH]; intros p; simpl; [done|].
  destruct (Ascii.eqb a c).
  - intros [= <-]. lia.
  - destruct (find_char c s) as [q|]; simpl; [|done].
    intros [= <-]. specialize (IH q eq_refl). lia.
Qed.

Lemma find_char_get c s p : find_char c s = Some p → get p s = Some c.
Proof.
  revert p. induction s as [|a s IH]; intros p; simpl; [done|].
  destruct (Ascii.eqb_spec a c) as [->|].
  - by intros [= <-].
  - destruct (find_char c s) as [q|]; simpl; [|done].
    intros [= <-]. by apply IH.
Qed.

Lemma length_cut i j s :
  (i < j)%nat → (j < String.length s)%nat →
  (String.length (cut i j s) < String.length s)%nat.
Proof. intros. unfold cut. rewrite str_length_app, str_length_take, str_length_drop. lia. Qed.

Lemma cut_cons i j a s : cut (S i) (S j) (String a s) = String a (cut i j s).
Proof. reflexivity. Qed.

Lemma cut_0 j a s : cut 0 j (String a s) = drop j s.
Proof. reflexivity. Qed.

Lemma count_app c s t : count c (s +:+ t) = (count c s + count c t)%nat.
Proof.
  induction s as [|a s IH]; [done|]. rewrite app_cons. simpl. rewrite IH. lia.
Qed.

Lemma count_take_drop c n s : (count c (take n s) + count c (drop n s))%nat = count c s.
Proof.
  revert n. induction s as [|a s IH]; intros [|n]; simpl; try done.
  rewrite <- (IH n). lia.
Qed.

Lemma count_drop_le c n s : (count c (drop n s) ≤ count c s)%nat.
Proof. pose proof (count_take_drop c n s). lia. Qed.

Lemma count_drop_mono c n m s :
  (n ≤ m)%nat → (count c (drop m s) ≤ count c (drop n s))%nat.
Proof.
  revert n m. induction s as [|a s IH]; intros [|n] [|m] ?; simpl; try lia.
  - pose proof (count_drop_le c m s). lia.
  - apply IH. lia.
Qed.

Lemma count_cut c i j s : (i ≤ j)%nat → (count c (cut i j s) ≤ count c s)%nat.
Proof.
  intros. unfold cut. rewrite count_app.
  pose proof (count_take_drop c i s).
  pose proof (count_drop_mono c i (S j) s). lia.
Qed.

Lemma find_char_count_0 c s : count c s = 0%nat → find_char c s = None.
Proof.
  induction s as [|a s IH]; simpl; [done|].
  destruct (Ascii.eqb a c); [lia|]. intros ?. rewrite IH by lia. done.
Qed.

Lemma find_char_app_fresh c u r :
  count c u = 0%nat → find_char c (u +:+ String c r) = Some (String.length u).
Proof.
  induction u as [|a u IH]; simpl.
  - intros _. rewrite ?app_empty_l. simpl. by rewrite Ascii.eqb_refl.
  - rewrite ?app_cons. simpl. destruct (Ascii.eqb a c); [lia|].
    intros ?. rewrite IH by lia. done.
Qed.

Lemma find_char_app_skip c u r :
  count c u = 0%nat →
  find_char c (u +:+ r) = (λ n, String.length u + n)%nat <$> find_char c r.
Proof.
  induction u as [|a u IH]; simpl.
  - intros _. rewrite ?app_empty_l. by destruct (find_char c r).
  - rewrite ?app_cons. simpl. destruct (Ascii.eqb a c); [lia|].
    intros ?. rewrite IH by lia. by destruct (find_char c r).
Qed.

(** Where the first occurrence of [c] is once a suffix is dropped, in a
    string that holds [c] at most once. *)
Lemma find_char_drop c n s :
  (count c s ≤ 1)%nat →
  find_char c (drop n s) =
    match find_char c s with
    | Some p => if (n <=? p)%nat then Some (p - n)%nat else None
    | None => None
    end.
Proof.
  revert n. induction s as [|a s IH]; intros [|n] Hc; simpl in *; try done.
  - destruct (Ascii.eqb a c); [done|].
    destruct (find_char c s); simpl; [|done]. f_equal; lia.
  - destruct (Ascii.eqb a c) eqn:E.
    + simpl. apply find_char_count_0.
      pose proof (count_drop_le c n s). lia.
    + rewrite IH by lia. destruct (find_char c s) as [p|]; simpl; [|done].
      case_nat_cmp.
Qed.

(** The same once the positions [i] to [j] are cut out. *)
Lemma find_char_cut c i j s :
  (i ≤ j)%nat → (count c s ≤ 1)%nat →
  find_char c (cut i j s) =
    match find_char c s with
    | Some p =>
        if (p <? i)%nat then Some p
        else if (j <? p)%nat then Some (p - (S j - i))%nat
        else None
    | None => None
    end.
Proof.
  revert i j. induction s as [|a s IH]; intros i j Hij Hc.
  - by destruct i.
  - destruct i as [|i].
    + rewrite cut_0. simpl in *. destruct (Ascii.eqb a c) eqn:E.
      * simpl. apply find_char_count_0.
        pose proof (count_drop_le c j s). lia.
      * rewrite find_char_drop by lia.
        destruct (find_char c s) as [p|]; simpl; [|done].
        case_nat_cmp.
    + destruct j as [|j]; [lia|]. rewrite cut_cons. simpl in *.
      destruct (Ascii.eqb a c) eqn:E; [done|].
      rewrite (IH i j) by lia.
      destruct (find_char c s) as [p|]; simpl; [|done].
      case_nat_cmp.
Qed.

End PyStrFacts.

(** ** Name normalizer *)

Section Normalizer.

Import PyStr.

(** One rule of [cleanup_test_name], as written with Python indices, is
    [strip_span]. *)
Lemma rule_strip_span o c s :
  (let tags_start := find s o in
   let tags_end := find s c in
   if (tags_start >? 0) && (tags_end >? tags_start)
   then slice_to s tags_start +:+ slice_from s (tags_end + 1)
   else s) = strip_span o c s.
Proof.
  unfold find, strip_span, slice_to, slice_from, cut. cbv zeta.
  destruct (find_char o s) as [i|], (find_char c s) as [j|]; simpl.
  - destruct (Z.gtb_spec (Z.of_nat i) 0), (Z.gtb_spec (Z.of_nat j) (Z.of_nat i));
      case_nat_cmp.
    destruct (Z.ltb_spec (Z.of_nat i) 0), (Z.ltb_spec (Z.of_nat j + 1) 0); try lia.
    rewrite Nat2Z.id. replace (Z.to_nat (Z.of_nat j + 1)) with (S j) by lia. done.
  - destruct (Z.gtb_spec (Z.of_nat i) 0), (Z.gtb_spec (-1) (Z.of_nat i)); simpl;
      try done; lia.
  - done.
  - done.
Qed.

Lemma cleanup_test_name_spans name strip_tags strip_scenarios :
  cleanup_test_name name strip_tags strip_scenarios =
    (if strip_scenarios then strip_span "(" ")" else id)
      ((if strip_tags then strip_span "[" "]" else id) name).
Proof.
  unfold cleanup_test_name.
  destruct strip_tags, strip_scenarios; simpl; rewrite ?rule_strip_span; done.
Qed.

(** A rule either leaves the string alone or cuts one span out of it. *)
Lemma strip_span_cases o c s :
  strip_span o c s = s ∨
  ∃ i j, find_char o s = Some i ∧ find_char c s = Some j ∧
         (0 < i < j)%nat ∧ strip_span o c s = cut i j s.
Proof.
  unfold strip_span.
  destruct (find_char o s) as [i|], (find_char c s) as [j|]; auto.
  destruct (Nat.ltb_spec 0 i), (Nat.ltb_spec i j); simpl; auto.
  right. exists i, j. auto.
Qed.

Lemma strip_span_count x o c s : (count x (strip_span o c s) ≤ count x s)%nat.
Proof.
  destruct (strip_span_cases o c s) as [->|(i & j & _ & _ & ? & ->)]; [done|].
  apply count_cut. lia.
Qed.

(** Once a span is cut out of a string with single delimiters, a rule
    that had nothing to strip still has nothing to strip. *)
Lemma strip_span_cut_stable o c i j s :
  (i ≤ j)%nat → (count o s ≤ 1)%nat → (count c s ≤ 1)%nat →
  strip_span o c s = s → strip_span o c (cut i j s) = cut i j s.
Proof.
  intros Hij Ho Hc Hs. unfold strip_span in *.
  rewrite !find_char_cut by done.
  destruct (find_char o s) as [a|], (find_char c s) as [b|] eqn:Eb; simpl; try done.
  - destruct (Nat.ltb_spec 0 a), (Nat.ltb_spec a b); simpl in Hs.
    + exfalso. apply find_char_lt in Eb.
      pose proof (length_cut a b s ltac:(done) Eb) as Hlt.
      rewrite Hs in Hlt. lia.
    + case_nat_cmp.
    + case_nat_cmp.
    + case_nat_cmp.
  - case_nat_cmp.
Qed.

(** A rule applied twice to a string with a single opening delimiter
    does nothing the second time. *)
Lemma strip_span_twice o c s :
  (count o s ≤ 1)%nat → strip_span o c (strip_span o c s) = strip_span o c s.
Proof.
  intros Ho.
  destruct (strip_span_cases o c s) as [E|(i & j & Hi & Hj & ? & ->)];
    [by rewrite !E|].
  unfold strip_span. rewrite find_char_cut by (done || lia). rewrite Hi.
  case_nat_cmp.
Qed.

End Normalizer.

Section NormalizerClaims.

Import PyStr.

Lemma drop_app_plus u k r : drop (String.length u + k) (u +:+ r) = drop k r.
Proof. induction u as [|a u IH]; [done|]. rewrite app_cons. by simpl. Qed.

Lemma drop_cons n a r : drop (S n) (String a r) = drop n r.
Proof. reflexivity. Qed.

Lemma strip_span_decomp o c u v w :
  u ≠ EmptyString → count o u = 0%nat → count c (u +:+ v) = 0%nat → o ≠ c →
  strip_span o c (u +:+ String o (v +:+ String c w)) = u +:+ w.
Proof.
  intros Hu Ho Hc Hoc. rewrite count_app in Hc.
  unfold strip_span.
  rewrite find_char_app_fresh by done.
  rewrite find_char_app_skip by lia. simpl.
  destruct (Ascii.eqb_spec o c) as [|_]; [done|].
  rewrite find_char_app_fresh by lia. simpl.
  assert (0 < String.length u)%nat by (destruct u; [done|simpl; lia]).
  case_nat_cmp. unfold cut. rewrite take_app_length. f_equal.
  replace (S (String.length u + S (String.length v)))
    with (String.length u + S (String.length v + 1))%nat by lia.
  rewrite drop_app_plus, drop_cons. by rewrite drop_app_plus.
Qed.

Lemma strip_span_unchanged o c s :
  find s o ≤ 0 ∨ find s c ≤ find s o → strip_span o c s = s.
Proof.
  unfold find, strip_span.
  destruct (find_char o s) as [i|], (find_char c s) as [j|]; try done.
  intros ?. case_nat_cmp.
Qed.

Lemma strip_span_cut o c s :
  0 < find s o < find s c →
  strip_span o c s = cut (Z.to_nat (find s o)) (Z.to_nat (find s c)) s.
Proof.
  unfold find, strip_span.
  destruct (find_char o s) as [i|], (find_char c s) as [j|]; try lia.
  intros ?. rewrite !Nat2Z.id. case_nat_cmp.
Qed.

(** C6, the claim as stated: the string [a]b[c]] holds a ['['] before a
    later [']'], and the tag rule takes no span out of it. *)
Lemma tag_rule_counterexample : ¬ tag_rule_as_stated "a]b[c]".
Proof.
  intros H. destruct H as (i & j & (Hi & Hj & Hlt) & E).
  { exists 3%nat, 5%nat. by repeat split; [..|lia]. }
  apply get_lt in Hj.
  pose proof (length_cut i j _ Hlt Hj) as Hlen.
  rewrite <- E in Hlen. vm_compute in Hlen. lia.
Qed.

(** C6, amended: each stripping rule of the name normalizer looks at the
    first opening and the first closing delimiter only.  When the first
    opening delimiter stands after a non-empty prefix [u] and the first
    closing delimiter comes later, the span from the one to the other,
    both included, is removed and the remainder concatenated; when the
    first opening delimiter is absent or at position 0, or the first
    closing delimiter is absent or not after it, the string is left
    unchanged.  This holds for the tag rule with ['['] and [']'] and for
    the scenario rule with ['('] and [')']. *)
Theorem cleanup_test_name_first_span (o c : ascii) (tags : bool) (name : string) :
  (o, c, tags) = ("["%char, "]"%char, true) ∨ (o, c, tags) = ("("%char, ")"%char, false) →
  (∀ u v w, name = u +:+ String o (v +:+ String c w) →
            u ≠ EmptyString → count o u = 0%nat → count c (u +:+ v) = 0%nat →
            cleanup_test_name name tags (negb tags) = u +:+ w) ∧
  (0 < find name o < find name c →
   cleanup_test_name name tags (negb tags)
     = cut (Z.to_nat (find name o)) (Z.to_nat (find name c)) name) ∧
  (find name o ≤ 0 ∨ find name c ≤ find name o →
   cleanup_test_name name tags (negb tags) = name).
Proof.
  intros Hrule. rewrite cleanup_test_name_spans.
  assert (o ≠ c) by (destruct Hrule as [[= -> -> ->]|[= -> -> ->]]; done).
  assert ((if negb tags then strip_span "(" ")" else id)
            ((if tags then strip_span "[" "]" else id) name) = strip_span o c name) as ->
    by (destruct Hrule as [[= -> -> ->]|[= -> -> ->]]; done).
  split; [|split].
  - intros u v w -> ???. by apply strip_span_decomp.
  - apply strip_span_cut.
  - apply strip_span_unchanged.
Qed.

Lemma cleanup_test_name_first_span_witness :
  cleanup_test_name "test_foo[tag1,tag2]" true false = "test_foo" +:+ ""
  ∧ cleanup_test_name "test_foo(one)" false true = cut 8 12 "test_foo(one)"
  ∧ cleanup_test_name "[tag]test_foo" true false = "[tag]test_foo".
Proof.
  split; [|split].
  - apply (proj1 (cleanup_test_name_first_span "[" "]" true "test_foo[tag1,tag2]"
                    (or_introl eq_refl)) "test_foo" "tag1,tag2" "");
      [reflexivity|discriminate|reflexivity|reflexivity].
  - apply (proj1 (proj2 (cleanup_test_name_first_span "(" ")" false "test_foo(one)"
                           (or_intror eq_refl)))).
    vm_compute. split; reflexivity.
  - apply (proj2 (proj2 (cleanup_test_name_first_span "[" "]" true "[tag]test_foo"
                           (or_introl eq_refl)))).
    left. vm_compute. discriminate.
Defined.

(** With both rules on, the scenario rule works on what the tag rule
    returns. *)
Lemma cleanup_test_name_both name :
  cleanup_test_name name true true
    = cleanup_test_name (cleanup_test_name name true false) false true.
Proof. by rewrite !cleanup_test_name_spans. Qed.

(** C7, the claim as stated: a name with two bracketed spans loses one of
    them at each application. *)
Lemma cleanup_test_name_not_idempotent :
  cleanup_test_name (cleanup_test_name "a[b][c]" true false) true false
    ≠ cleanup_test_name "a[b][c]" true false.
Proof. vm_compute. discriminate. Qed.

(** C7, amended: on every name that holds each of the four delimiters
    ['['], [']'], ['('] and [')'] at most once, and for every setting of
    the two switches, the name normalizer applied to its own output
    returns that output unchanged. *)
Theorem cleanup_test_name_idempotent (name : string) (strip_tags strip_scenarios : bool) :
  single_delimiters name →
  cleanup_test_name (cleanup_test_name name strip_tags strip_scenarios)
      strip_tags strip_scenarios
    = cleanup_test_name name strip_tags strip_scenarios.
Proof.
  intros (Ho & Hc & Ho' & Hc'). rewrite !cleanup_test_name_spans.
  destruct strip_tags, strip_scenarios; simpl; try done.
  - set (s1 := strip_span "[" "]" name).
    assert (strip_span "[" "]" s1 = s1) as E1 by (by apply strip_span_twice).
    assert (strip_span "[" "]" (strip_span "(" ")" s1) = strip_span "(" ")" s1) as ->.
    { destruct (strip_span_cases "(" ")" s1) as [->|(i & j & _ & _ & ? & ->)]; [done|].
      apply strip_span_cut_stable; [lia|..|done];
        (etrans; [apply strip_span_count|done]). }
    apply strip_span_twice. etrans; [apply strip_span_count|done].
  - by apply strip_span_twice.
  - by apply strip_span_twice.
Qed.

Lemma cleanup_test_name_idempotent_witness :
  single_delimiters "test_foo(scen)[tag1,tag2]" ∧
  cleanup_test_name (cleanup_test_name "test_foo(scen)[tag1,tag2]" true true) true true
    = cleanup_test_name "test_foo(scen)[tag1,tag2]" true true.
Proof.
  assert (single_delimiters "test_foo(scen)[tag1,tag2]") as H
    by (unfold single_delimiters; simpl; lia).
  split; [exact H|]. exact (cleanup_test_name_idempotent _ true true H).
Defined.

End NormalizerClaims.

(** ** Number formatting *)

Section Formatting.

Import PyFmt.

Lemma digit_value_digit d : 0 ≤ d < 10 → digit_value (digit d) = Some d.
Proof.
  intros ?.
  assert (d = 0 ∨ d = 1 ∨ d = 2 ∨ d = 3 ∨ d = 4 ∨ d = 5 ∨ d = 6 ∨ d = 7
          ∨ d = 8 ∨ d = 9) as Hd by lia.
  repeat destruct Hd as [->|Hd]; try done. by subst.
Qed.

(** [digits_go] prepends the [k] decimal digits of [n] to [acc]. *)
Lemma digits_go_spec fuel n acc :
  (1 ≤ fuel)%nat → 0 ≤ n < 10 ^ Z.of_nat fuel →
  ∃ k : nat,
    (1 ≤ k ≤ fuel)%nat ∧
    String.length (digits_go fuel n acc) = (k + String.length acc)%nat ∧
    (k = 1%nat ∨ 10 ^ (Z.of_nat k - 1) ≤ n) ∧
    ∀ a, parse_digits (digits_go fuel n acc) a
         = parse_digits acc (a * 10 ^ Z.of_nat k + n).
Proof.
  revert n acc. induction fuel as [|fuel IH]; intros n acc Hfuel Hn; [lia|].
  rewrite Nat2Z.inj_succ, Z.pow_succ_r in Hn by lia.
  cbn [digits_go]. destruct (Z.ltb_spec n 10) as [Hlt|Hge].
  - exists 1%nat. split; [lia|]. split; [done|]. split; [by left|].
    intros a. cbn [parse_digits].
    rewrite digit_value_digit by (apply Z.mod_pos_bound; lia).
    rewrite Z.mod_small by lia. f_equal.
    change (Z.of_nat 1) with 1. lia.
  - assert (0 ≤ n / 10 < 10 ^ Z.of_nat fuel) as Hdiv.
    { split; [apply Z.div_pos; lia|].
      apply Z.div_lt_upper_bound; lia. }
    assert (1 ≤ fuel)%nat as Hfuel'.
    { destruct fuel; [|lia]. change (Z.of_nat 0) with 0 in Hn.
      rewrite Z.pow_0_r in Hn. lia. }
    destruct (IH (n / 10) (String (digit (n mod 10)) acc) Hfuel' Hdiv)
      as (k & Hk & Hlen & Hlow & Hparse).
    pose proof (Z.div_mod n 10 ltac:(lia)) as Hdm.
    pose proof (Z.mod_pos_bound n 10 ltac:(lia)) as Hmb.
    exists (S k). split; [lia|]. split; [|split].
    + rewrite Hlen. cbn [String.length]. lia.
    + right. replace (Z.of_nat (S k) - 1) with (Z.succ (Z.of_nat k - 1)) by lia.
      rewrite Z.pow_succ_r by lia.
      destruct Hlow as [->|Hlow]; [|lia].
      change (Z.of_nat 1 - 1) with 0. rewrite Z.pow_0_r. lia.
    + intros a. rewrite Hparse. cbn [parse_digits].
      rewrite digit_value_digit by done.
      f_equal. rewrite Nat2Z.inj_succ, Z.pow_succ_r by lia. lia.
Qed.

Lemma digits_fuel n : 0 ≤ n → n < 10 ^ Z.of_nat (S (Z.to_nat (Z.log2 n))).
Proof.
  intros Hn. rewrite Nat2Z.inj_succ, Z2Nat.id by apply Z.log2_nonneg.
  destruct (decide (n = 0)) as [->|]; [done|].
  pose proof (Z.log2_spec n ltac:(lia)) as [_ Hlt].
  eapply Z.lt_le_trans; [exact Hlt|].
  apply Z.pow_le_mono_l. lia.
Qed.

(** The digits of [n] denote [n]; below [10 ^ w] there are at most [w]. *)
Lemma digits_spec n :
  0 ≤ n →
  value (digits n) = Some n ∧
  ∀ w : nat, n < 10 ^ Z.of_nat w → (1 ≤ w)%nat → (String.length (digits n) ≤ w)%nat.
Proof.
  intros Hn. unfold digits, value.
  destruct (digits_go_spec (S (Z.to_nat (Z.log2 n))) n EmptyString
              ltac:(lia) (conj Hn (digits_fuel n Hn)))
    as (k & Hk & Hlen & Hlow & Hparse).
  split.
  - rewrite Hparse. simpl. done.
  - intros w Hw Hw1. rewrite Hlen. simpl.
    destruct Hlow as [->|Hlow]; [lia|].
    destruct (decide (k ≤ w)%nat); [lia|]. exfalso.
    assert (10 ^ Z.of_nat w ≤ 10 ^ (Z.of_nat k - 1)); [|lia].
    apply Z.pow_le_mono_r; lia.
Qed.

(** The digits of [n] are as many as [n] needs: there is no leading
    zero. *)
Lemma digits_canonical n :
  0 ≤ n →
  String.length (digits n) = 1%nat
  ∨ 10 ^ (Z.of_nat (String.length (digits n)) - 1) ≤ n.
Proof.
  intros Hn. unfold digits.
  destruct (digits_go_spec (S (Z.to_nat (Z.log2 n))) n EmptyString
              ltac:(lia) (conj Hn (digits_fuel n Hn)))
    as (k & Hk & Hlen & Hlow & _).
  rewrite Hlen. cbn [String.length]. rewrite Nat.add_0_r.
  destruct Hlow as [->|Hlow]; [by left|by right].
Qed.

Lemma parse_digits_zeros m s a :
  parse_digits (PyStr.repeat "0" m +:+ s) a = parse_digits s (a * 10 ^ Z.of_nat m).
Proof.
  revert a. induction m as [|m IH]; intros a.
  - simpl. rewrite app_empty_l. f_equal. lia.
  - cbn [PyStr.repeat]. rewrite app_cons. cbn [parse_digits].
    change (digit_value "0") with (Some 0). cbv iota beta. rewrite IH. f_equal.
    rewrite Nat2Z.inj_succ, Z.pow_succ_r by lia. lia.
Qed.

Lemma length_repeat c m : String.length (PyStr.repeat c m) = m.
Proof. induction m; simpl; auto. Qed.

(** ['%06d'] of a number of microseconds: six digits that denote it. *)
Lemma pct_0d_micro n :
  0 ≤ n < 1000000 →
  String.length (pct_0d 6 n) = 6%nat ∧ value (pct_0d 6 n) = Some n.
Proof.
  intros Hn. unfold pct_0d.
  destruct (Z.ltb_spec n 0); [lia|]. rewrite Z.abs_eq by lia.
  destruct (digits_spec n ltac:(lia)) as [Hv Hl].
  specialize (Hl 6%nat ltac:(simpl; lia) ltac:(lia)).
  split.
  - rewrite str_length_app, length_repeat. lia.
  - unfold value in *. rewrite parse_digits_zeros. simpl. done.
Qed.

End Formatting.

(** ** Duration formatter *)

Lemma timedelta_whole_seconds (e s : datetime) :
  days (datetime_sub e s) * DAY_SECONDS + seconds (datetime_sub e s)
    = (instant e - instant s) / 1000000.
Proof.
  unfold datetime_sub, DAY_SECONDS. simpl.
  set (d := instant e - instant s).
  rewrite (Z.div_mod d (86400 * 1000000)) at 3 by lia.
  replace (86400 * 1000000 * (d / (86400 * 1000000)))
    with (d / (86400 * 1000000) * (60 * 60 * 24) * 1000000) by lia.
  rewrite Z.div_add_l by lia. done.
Qed.

(** C5: the duration formatter is total.  With an endpoint absent the
    result is the empty string.  Otherwise it is a minus sign when the
    elapsed time is negative, the decimal digits of the whole seconds
    without a leading zero, a dot, six digits that denote the remaining
    microseconds, and ['s']; the whole seconds are those of all the days
    and seconds of the difference, [days * 86400 + seconds], which is the
    elapsed time in seconds rounded down.  Equal endpoints give
    ['0.000000s']. *)
Theorem get_duration_total :
  (∀ e, get_duration (None, e) = "") ∧
  (∀ s, get_duration (s, None) = "") ∧
  (∀ s e : datetime,
     let delta := datetime_sub e s in
     let whole_seconds := days delta * 86400 + seconds delta in
     ∃ whole frac,
       get_duration (Some s, Some e)
         = (if whole_seconds <? 0 then "-" else "")
             +:+ whole +:+ "." +:+ frac +:+ "s" ∧
       PyFmt.value whole = Some (Z.abs whole_seconds) ∧
       (String.length whole = 1%nat
        ∨ 10 ^ (Z.of_nat (String.length whole) - 1) ≤ Z.abs whole_seconds) ∧
       String.length frac = 6%nat ∧
       PyFmt.value frac = Some ((instant e - instant s) mod 1000000) ∧
       whole_seconds = (instant e - instant s) / 1000000) ∧
  (∀ t, get_duration (Some t, Some t) = "0.000000s").
Proof.
  split; [done|]. split; [by intros []|]. split.
  - intros s e delta whole_seconds.
    exists (PyFmt.digits (Z.abs whole_seconds)), (PyFmt.pct_0d 6 (microseconds delta)).
    pose proof (timedelta_whole_seconds e s) as Hw. fold delta in Hw.
    change DAY_SECONDS with 86400 in Hw. fold whole_seconds in Hw.
    destruct (pct_0d_micro (microseconds delta)) as [Hl Hv].
    { apply Z.mod_pos_bound. lia. }
    destruct (digits_spec (Z.abs whole_seconds) ltac:(lia)) as [Hd _].
    pose proof (digits_canonical (Z.abs whole_seconds) ltac:(lia)) as Hc.
    repeat split; [|done|done|done|done|done].
    unfold get_duration. fold delta. change DAY_SECONDS with 86400.
    fold whole_seconds. unfold PyFmt.pct_d.
    destruct (Z.ltb_spec whole_seconds 0).
    + by rewrite Z.abs_neq by lia.
    + by rewrite Z.abs_eq by lia.
  - intros t. unfold get_duration, datetime_sub. rewrite Z.sub_diag. done.
Qed.

(** ** Outcome aggregator *)

(** Unfolds the plumbing of [Run] without touching its primitives. *)
Ltac run_steps :=
  unfold lift_worker, mbind, Run_bind, mret, Run_ret, raise; cbv beta iota.

Section Aggregator.

Lemma record_result_insert worker test w :
  record_result worker test w
  = (inl (), {| FAILS := FAILS w;
                RESULTS := <[worker := default [] (RESULTS w !! worker) ++ [test]]>
                             (RESULTS w);
                stdout := stdout w |}).
Proof.
  unfold record_result. do 2 f_equal.
  destruct (RESULTS w !! worker) as [bucket|] eqn:E; simpl.
  - apply map_eq. intros k. destruct (decide (worker = k)) as [<-|].
    + by rewrite lookup_alter_eq, lookup_insert_eq, E.
    + by rewrite lookup_alter_ne, lookup_insert_ne.
  - by rewrite alter_insert_eq.
Qed.

Lemma bucket_total_insert worker test (results : gmap Worker (list TestDict)) :
  bucket_total (<[worker := default [] (results !! worker) ++ [test]]> results)
  = S (bucket_total results).
Proof.
  unfold bucket_total.
  destruct (results !! worker) as [bucket|] eqn:E; simpl.
  - rewrite <- insert_delete_eq.
    rewrite map_fold_insert_L; [|intros; lia|by rewrite lookup_delete_eq].
    rewrite (map_fold_delete_L _ _ worker bucket results); [|intros; lia|done].
    rewrite length_app. simpl. lia.
  - rewrite map_fold_insert_L; [done|intros; lia|done].
Qed.

(** The three ways [show_outcome] ends before it reports by status. *)
Lemma show_outcome_exists test w :
  d_status test = "exists" → show_outcome test w = (inl (), w).
Proof. intros E. unfold show_outcome. by rewrite E. Qed.

Lemma show_outcome_raises test w :
  d_status test ≠ "exists" → find_worker test = inr ValueError →
  show_outcome test w = (inr ValueError, w).
Proof.
  intros Hs E. unfold show_outcome.
  destruct (String.eqb_spec (d_status test) "exists"); [done|].
  by rewrite E.
Qed.

Lemma show_outcome_returncode test worker w :
  d_status test ≠ "exists" → find_worker test = inl worker →
  cleanup_test_name_default (d_id test) = "process-returncode" →
  show_outcome test w
  = (inl (), {| FAILS := FAILS w;
                RESULTS := <[worker := default [] (RESULTS w !! worker) ++ [test]]>
                             (RESULTS w);
                stdout := stdout w |}).
Proof.
  intros Hs E En. unfold show_outcome.
  destruct (String.eqb_spec (d_status test) "exists"); [done|].
  rewrite E, En. run_steps. by rewrite record_result_insert.
Qed.

(** The report by status: the state [show_outcome] leaves. *)
Lemma show_outcome_reports test worker w :
  d_status test ≠ "exists" → d_status test ≠ "skip" →
  cleanup_test_name_default (d_id test) ≠ "process-returncode" →
  find_worker test = inl worker →
  show_outcome test w
  = (match print_attachments_raised test
             (negb (String.eqb (d_status test) "success")) with
     | Some e => inr e
     | None => inl ()
     end,
     {| FAILS := FAILS w ++ (if String.eqb (d_status test) "fail" then [test] else []);
        RESULTS := <[worker := default [] (RESULTS w !! worker) ++ [test]]> (RESULTS w);
        stdout := stdout w
          ++ outcome_line worker (cleanup_test_name_default (d_id test))
               (get_duration (d_timestamps test)) (outcome_word (d_status test))
             :: print_attachments_writes test
                  (negb (String.eqb (d_status test) "success")) |}).
Proof.
  intros Hs Hk Hn E. unfold show_outcome.
  destruct (String.eqb_spec (d_status test) "exists"); [done|].
  rewrite E. run_steps. rewrite record_result_insert.
  destruct (String.eqb_spec (cleanup_test_name_default (d_id test))
              "process-returncode"); [done|].
  unfold outcome_word.
  destruct (String.eqb_spec (d_status test) "success") as [Es|Es].
  { rewrite Es. unfold write, print_attachments. cbn.
    rewrite app_nil_r, <- app_assoc. reflexivity. }
  destruct (String.eqb_spec (d_status test) "fail") as [Ef|Ef].
  { unfold record_fail, write, print_attachments. cbn.
    rewrite <- app_assoc. reflexivity. }
  destruct (String.eqb_spec (d_status test) "skip"); [done|].
  unfold write, print_attachments. cbn.
  rewrite app_nil_r, <- app_assoc. reflexivity.
Qed.

End Aggregator.

Section AggregatorClaims.

(** The buckets after one call, whatever its end. *)
Lemma show_outcome_RESULTS test w r w' :
  show_outcome test w = (r, w') →
  RESULTS w' =
    if String.eqb (d_status test) "exists" then RESULTS w
    else match find_worker test with
         | inl worker =>
             <[worker := default [] (RESULTS w !! worker) ++ [test]]> (RESULTS w)
         | inr _ => RESULTS w
         end.
Proof.
  unfold show_outcome.
  destruct (String.eqb (d_status test) "exists"); [by intros [= <- <-]|].
  destruct (find_worker test) as [worker|e]; run_steps; [|by intros [= <- <-]].
  rewrite record_result_insert.
  unfold record_fail, write, print_attachments, write_all.
  repeat case_match; cbn; by intros [= <- <-].
Qed.

(** The failure list and the output after one call on a record that
    normalizes to 'process-returncode'. *)
Lemma show_outcome_returncode_silent test w r w' :
  cleanup_test_name_default (d_id test) = "process-returncode" →
  show_outcome test w = (r, w') → stdout w' = stdout w ∧ FAILS w' = FAILS w.
Proof.
  intros En. unfold show_outcome.
  destruct (String.eqb (d_status test) "exists"); [by intros [= <- <-]|].
  destruct (find_worker test) as [worker|e]; run_steps; [|by intros [= <- <-]].
  rewrite record_result_insert, En. cbn. by intros [= <- <-].
Qed.

Lemma show_outcome_bucket test w w' :
  show_outcome test w = (inl (), w') →
  bucket_total (RESULTS w')
  = (bucket_total (RESULTS w) + (if is_exists test then 0 else 1))%nat.
Proof.
  intros E. pose proof (show_outcome_RESULTS _ _ _ _ E) as ->.
  unfold is_exists. destruct (String.eqb_spec (d_status test) "exists") as [Es|Es].
  { lia. }
  destruct (find_worker test) as [worker|e] eqn:Ew.
  - rewrite bucket_total_insert. lia.
  - unfold show_outcome in E. rewrite Ew in E.
    destruct (String.eqb_spec (d_status test) "exists"); [done|]. by cbn in E.
Qed.

(** C3, the claim as stated: one 'process-returncode' record, handed to
    the aggregator of a fresh process, is in a bucket. *)
Lemma buckets_counterexample :
  ¬ buckets_as_stated [test_of "process-returncode" "success" []].
Proof.
  intros H. specialize (H _ eq_refl). vm_compute in H. discriminate.
Qed.

(** C3, amended: only the records with status 'exists' are kept out of
    everything.  For a record with status 'exists' the aggregator returns
    at once: it leaves the buckets, the failure list and the output as
    they are.  After the aggregator has returned for each of a list of
    records, the sum of the bucket sizes has grown by the number of
    records whose status is not 'exists'; a record whose normalized name
    is 'process-returncode' is in its worker's bucket, and it is kept out
    of the output and of the failure list. *)
Theorem show_outcomes_bucket_total (tests : list TestDict) (w w' : World) :
  show_outcomes tests w = (inl (), w') →
  bucket_total (RESULTS w')
    = (bucket_total (RESULTS w)
       + length (List.filter (λ t, negb (is_exists t)) tests))%nat ∧
  (∀ test w1, d_status test = "exists" → show_outcome test w1 = (inl (), w1)) ∧
  ∀ test w1 r w2,
    cleanup_test_name_default (d_id test) = "process-returncode" →
    show_outcome test w1 = (r, w2) →
    stdout w2 = stdout w1 ∧ FAILS w2 = FAILS w1.
Proof.
  intros E.
  split; [|split; [intros; by apply show_outcome_exists
                  |intros; by eapply show_outcome_returncode_silent]].
  revert w E. induction tests as [|test tests IH]; intros w E.
  - cbn in E. injection E as <-. simpl. lia.
  - cbn [show_outcomes] in E. unfold mbind, Run_bind in E.
    destruct (show_outcome test w) as [[[]|e] w1] eqn:E1; [|done].
    rewrite (IH _ E), (show_outcome_bucket _ _ _ E1). simpl.
    destruct (is_exists test); simpl; lia.
Qed.

Lemma show_outcomes_bucket_total_witness :
  let tests := [test_of "test_a" "success" ["worker-0"];
                test_of "process-returncode" "fail" [];
                test_of "test_b" "exists" ["worker-1"]] in
  bucket_total (RESULTS (snd (show_outcomes tests fresh_world))) = 2%nat.
Proof.
  intros tests.
  exact (proj1 (show_outcomes_bucket_total tests fresh_world
                  (snd (show_outcomes tests fresh_world)) eq_refl)).
Defined.

(** In the standard-only mode the printer does what the all-channels
    mode does on the 'stdout' and 'stderr' attachments alone. *)
Lemma print_attachments_standard test :
  print_attachments_loop false (d_details test)
  = print_attachments_loop true (standard_details test).
Proof.
  unfold standard_details.
  induction (d_details test) as [|[name detail] details IH]; [done|].
  cbn [List.filter fst].
  destruct (bool_decide (PyStr2.split_head ":" name ∈ channels)) eqn:E.
  - cbn [print_attachments_loop]. rewrite IH.
    unfold print_attachment. rewrite E. done.
  - cbn [print_attachments_loop]. rewrite <- IH.
    unfold print_attachment at 1. rewrite E.
    by destruct (print_attachments_loop false details).
Qed.

(** The printer returns when [as_text] returns for each attachment it
    selects, and only then. *)
Lemma print_attachments_loop_returns all details :
  snd (print_attachments_loop all details) = None
  ↔ Forall (λ item, selected all item = true →
                    ∃ t, as_text (retyped (snd item)) = inl t) details.
Proof.
  induction details as [|[name detail] details IH].
  { split; [constructor|done]. }
  rewrite Forall_cons, <- IH. clear IH.
  cbn [print_attachments_loop]. unfold print_attachment, selected. cbn [fst snd].
  destruct (all || bool_decide (PyStr2.split_head ":" name ∈ channels)).
  - destruct (as_text (retyped detail)) as [t|e].
    + destruct (print_attachments_loop all details) as [out raised].
      destruct (PyStr.falsy t); cbn [snd]; naive_solver.
    + cbn [snd]. split; [done|]. intros [H _]. by destruct (H eq_refl).
  - destruct (print_attachments_loop all details) as [out raised].
    cbn [snd]. naive_solver.
Qed.

(** C4, the claim as stated: a record whose identifier carries a tag
    suffix after 'process-returncode' is not reported, and neither is a
    record whose worker tag does not parse. *)
Lemma outcome_counterexample :
  ¬ outcome_as_stated (test_of "process-returncode[x]" "success" []) ∧
  ¬ outcome_as_stated (test_of "test_a" "success" ["worker-abc"]).
Proof.
  split; intros H.
  - destruct (H ltac:(done) ltac:(done) ltac:(done) ltac:(done) fresh_world)
      as (worker & w' & E & Hout & _).
    vm_compute in E. injection E as <-. by destruct worker.
  - destruct (H ltac:(done) ltac:(done) ltac:(done) ltac:(done) fresh_world)
      as (worker & w' & E & _).
    vm_compute in E. discriminate.
Qed.

(** C4, amended: for every record whose status is neither 'exists' nor
    'skip', whose normalized name is not 'process-returncode' and whose
    worker resolves, the aggregator puts the record in its worker's
    bucket and writes one line, by status: 'success' writes
    [{worker} name [duration] ... ok] and then prints the standard-channel
    attachments only; 'fail' appends the record to the failure list,
    writes [... FAILED] and then prints all the attachments; any other
    status writes [... <status>] and then prints all the attachments.
    The printing goes attachment by attachment and ends with the
    exception of [as_text] at the first selected attachment that is not
    text or does not decode, after the line and the blocks before it have
    been written; the aggregator returns exactly when there is no such
    attachment. *)
Theorem show_outcome_by_status (test : TestDict) (worker : Worker) (w : World) :
  d_status test ≠ "exists" → d_status test ≠ "skip" →
  cleanup_test_name_default (d_id test) ≠ "process-returncode" →
  find_worker test = inl worker →
  let all_channels := negb (String.eqb (d_status test) "success") in
  ∃ w',
    show_outcome test w
      = (match print_attachments_raised test all_channels with
         | Some e => inr e
         | None => inl ()
         end, w') ∧
    RESULTS w' = <[worker := default [] (RESULTS w !! worker) ++ [test]]> (RESULTS w) ∧
    FAILS w' = FAILS w ++ (if String.eqb (d_status test) "fail" then [test] else []) ∧
    stdout w' = stdout w
      ++ outcome_line worker (cleanup_test_name_default (d_id test))
           (get_duration (d_timestamps test))
           (if String.eqb (d_status test) "success" then "ok"
            else if String.eqb (d_status test) "fail" then "FAILED"
            else d_status test)
         :: print_attachments_writes test all_channels ∧
    print_attachments_loop false (d_details test)
      = print_attachments_loop true (standard_details test) ∧
    (print_attachments_raised test all_channels = None
     ↔ Forall (λ item, selected all_channels item = true →
                       ∃ t, as_text (retyped (snd item)) = inl t) (d_details test)).
Proof.
  intros Hs Hk Hn Hw all_channels. eexists.
  split; [by apply show_outcome_reports|].
  cbn [RESULTS FAILS stdout]. split; [done|]. split; [done|].
  split; [done|].
  split; [apply print_attachments_standard|apply print_attachments_loop_returns].
Qed.

Lemma show_outcome_by_status_witness :
  let test :=
    {| d_id := "test_b"; d_tags := ["worker-3"];
       d_details := [("pythonlogging:''", {| content_type_type := "test";
                                              text := Some "boom" |});
                     ("traceback", {| content_type_type := "application";
                                      text := Some "frames" |})];
       d_status := "fail"; d_timestamps := (None, None) |} in
  ∃ w', show_outcome test fresh_world = (inr ValueError, w')
        ∧ FAILS w' = [test]
        ∧ stdout w' = ["{3} test_b [] ... FAILED" +:+ nl;
                       nl +:+ "Captured pythonlogging:" +:+ nl
                          +:+ "~~~~~~~~~~~~~~~~~~~~~~~" +:+ nl;
                       "    boom" +:+ nl].
Proof.
  intros test.
  destruct (show_outcome_by_status test (WorkerId 3) fresh_world)
    as (w' & E & _ & Hf & Ho & _); [discriminate|discriminate|discriminate|reflexivity|].
  exists w'. split; [exact E|]. split; [exact Hf|exact Ho].
Defined.

Lemma find_worker_bad test : bad_worker_tag test → find_worker test = inr ValueError.
Proof.
  intros (pre & tag & post & Ht & Hpre & Htag & Hint).
  unfold find_worker. rewrite Ht. clear Ht.
  induction Hpre as [|t pre Hp _ IH]; simpl.
  - by rewrite Htag, Hint.
  - by rewrite Hp.
Qed.

(** C10, the claim as stated: a record with status 'exists' and the tag
    'worker-abc' makes the resolver raise, and the aggregator returns. *)
Lemma aborts_counterexample :
  ¬ aborts_as_stated (test_of "test_a" "exists" ["worker-abc"]).
Proof.
  intros H. destruct H as [_ H].
  { exists [], "worker-abc", []. by repeat split. }
  specialize (H fresh_world). vm_compute in H. discriminate.
Qed.

(** C10, amended: for every record whose first tag with the prefix
    'worker-' has a remainder that is not a decimal integer, the worker
    resolver raises instead of returning the sentinel; the aggregator
    then aborts with that exception before it touches the buckets, the
    failure list or the output, unless the status of the record is
    'exists', in which case it returns without calling the resolver. *)
Theorem show_outcome_bad_worker (test : TestDict) :
  bad_worker_tag test →
  find_worker test = inr ValueError ∧
  ∀ w, show_outcome test w
       = (if is_exists test then inl () else inr ValueError, w).
Proof.
  intros Hbad. pose proof (find_worker_bad _ Hbad) as E. split; [done|].
  intros w. unfold is_exists.
  destruct (String.eqb_spec (d_status test) "exists").
  - by apply show_outcome_exists.
  - by apply show_outcome_raises.
Qed.

Lemma show_outcome_bad_worker_witness :
  find_worker (test_of "test_a" "fail" ["smoke"; "worker-abc"]) = inr ValueError ∧
  show_outcome (test_of "test_a" "fail" ["smoke"; "worker-abc"]) fresh_world
    = (inr ValueError, fresh_world).
Proof.
  assert (bad_worker_tag (test_of "test_a" "fail" ["smoke"; "worker-abc"])) as Hbad.
  { exists ["smoke"], "worker-abc", []. repeat split. by repeat constructor. }
  destruct (show_outcome_bad_worker _ Hbad) as [E H].
  split; [exact E|exact (H fresh_world)].
Defined.

End AggregatorClaims.

(** ** Start tracker *)

Section StartTracker.

Lemma start_lines_app id out out' :
  start_lines id (out ++ out') = (start_lines id out + start_lines id out')%nat.
Proof. unfold start_lines. by rewrite List.filter_app, length_app. Qed.

(** One event: the emitted set only grows, an identifier in it gets no
    start line, and an identifier that gets one is in it afterwards. *)
Lemma Starts_status_spec self ev id :
  let '(self', out) := Starts_status self ev in
  _emitted self ⊆ _emitted self' ∧
  (start_lines id out ≤ 1)%nat ∧
  (id ∈ _emitted self → start_lines id out = 0%nat) ∧
  (start_lines id out = 1%nat → id ∈ _emitted self').
Proof.
  unfold Starts_status.
  destruct (falsy_opt (test_id ev)).
  { destruct (falsy_opt (file_bytes ev)); [by repeat split; auto; cbn; lia|].
    destruct (Starts_text ev) as [text|e]; [|by repeat split; auto; cbn; lia].
    destruct (negb (PyStr.falsy text) && negb (ends_with_newline text));
      cbn; repeat split; auto; lia. }
  destruct (bool_decide (test_status ev = Some "inprogress")); cbn [andb];
    [|by repeat split; auto; cbn; lia].
  destruct (bool_decide_reflect (default "" (test_id ev) ∉ _emitted self)) as [Hn|_];
    [|by repeat split; auto; cbn; lia].
  set (id0 := default "" (test_id ev)) in *.
  assert (∀ out0 self0 worker,
    start_lines id out0 = 0%nat →
    _emitted self0 = _emitted self →
    let out := out0 ++ [WriteStart "" worker id0] in
    _emitted self ⊆ {[id0]} ∪ _emitted self0 ∧
    (start_lines id out0 ≤ 1)%nat ∧ (start_lines id out ≤ 1)%nat ∧
    (id ∈ _emitted self → start_lines id out0 = 0%nat ∧ start_lines id out = 0%nat) ∧
    (start_lines id out0 = 1%nat → id ∈ {[id0]} ∪ _emitted self0) ∧
    (start_lines id out = 1%nat → id ∈ {[id0]} ∪ _emitted self0)) as Hcase.
  { intros out0 self0 worker H0 He out. subst out.
    rewrite start_lines_app, H0, He. unfold start_lines. cbn.
    destruct (String.eqb_spec id0 id) as [->|]; cbn;
      repeat split; try lia; try set_solver. }
  destruct (_neednewline self), (timestamp ev) as [ts|]; cbn [_emitted _neednewline].
  - destruct (Hcase [WriteNewline] self "" eq_refl eq_refl) as (? & ? & ? & ? & ? & ?).
    naive_solver.
  - destruct (Hcase [WriteNewline]
                {| _neednewline := false; _emitted := _emitted self |}
                (worker_label (default [] (test_tags ev)) "") eq_refl eq_refl)
      as (? & ? & ? & ? & ? & ?).
    naive_solver.
  - destruct (Hcase [] self "" eq_refl eq_refl) as (? & ? & ? & ? & ? & ?).
    naive_solver.
  - destruct (Hcase [] self (worker_label (default [] (test_tags ev)) "")
                eq_refl eq_refl) as (? & ? & ? & ? & ? & ?).
    naive_solver.
Qed.

(** No event that carries a timestamp gets a start line. *)
Lemma Starts_status_timestamp_silent self ev ts id :
  timestamp ev = Some ts → start_lines id (snd (Starts_status self ev)) = 0%nat.
Proof.
  intros E. unfold Starts_status. rewrite E.
  repeat case_match; simplify_eq; done.
Qed.

(** The branch without a timestamp writes the start line. *)
Lemma Starts_status_no_timestamp self ev i :
  test_id ev = Some i → i ≠ EmptyString →
  test_status ev = Some "inprogress" → i ∉ _emitted self →
  timestamp ev = None → _neednewline self = false →
  Starts_status self ev
  = ({| _neednewline := false; _emitted := {[ i ]} ∪ _emitted self |},
     [WriteStart "" (worker_label (default [] (test_tags ev)) "") i]).
Proof.
  intros Ei Hi Es Hn Et Hl. unfold Starts_status.
  rewrite Ei, Es, Et, Hl. destruct i as [|a i]; [done|].
  cbn [falsy_opt PyStr.falsy default from_option].
  rewrite bool_decide_eq_true_2 by done.
  rewrite bool_decide_eq_true_2 by done.
  cbn. by rewrite Hl.
Qed.

Lemma Starts_run_from_spec evs self id :
  (start_lines id (snd (Starts_run_from self evs)) ≤ 1)%nat ∧
  (id ∈ _emitted self → start_lines id (snd (Starts_run_from self evs)) = 0%nat).
Proof.
  revert self. induction evs as [|ev evs IH]; intros self.
  { cbn. split; [lia|done]. }
  cbn [Starts_run_from].
  pose proof (Starts_status_spec self ev id) as Hstep.
  destruct (Starts_status self ev) as [self1 out].
  destruct Hstep as (Hsub & Hle & Hin & Hone).
  destruct (IH self1) as [IHle IHin].
  destruct (Starts_run_from self1 evs) as [self2 out'].
  cbn [snd] in *. rewrite start_lines_app. split.
  - destruct (decide (start_lines id out = 1%nat)) as [E|]; [|lia].
    rewrite (IHin (Hone E)). lia.
  - intros Hid. rewrite (Hin Hid), IHin; [done|]. by apply Hsub.
Qed.

(** C8: over a whole run, whatever the events, the start tracker writes
    at most one start line for each test identifier. *)
Theorem Starts_at_most_one_start_line (evs : list Event) (id : string) :
  (start_lines id (snd (Starts_run evs)) ≤ 1)%nat.
Proof. apply Starts_run_from_spec. Qed.

(** C1, on the code: the 'inprogress' event of the end-to-end scenario,
    which carries a timestamp, an identifier not yet emitted and the tag
    'worker-0', is marked as emitted and nothing is written for it; the
    whole scenario prints the outcome line alone and exits with 0.  The
    same event without its timestamp gets its start line. *)
Theorem Starts_status_timestamp_no_start_line :
  snd (Starts_status Starts_startTestRun test_a_inprogress) = [] ∧
  "test_a" ∈ _emitted (fst (Starts_status Starts_startTestRun test_a_inprogress)) ∧
  (let '(r, w) := main [test_a_inprogress; test_a_success] fresh_world in
   r = inl 0 ∧ stdout w = ["{0} test_a [1.000000s] ... ok" +:+ nl]) ∧
  snd (Starts_status Starts_startTestRun
         (event (Some "test_a") (Some "inprogress") (Some ["worker-0"]) None))
    = [WriteStart "" "(0) " "test_a"].
Proof.
  split; [by vm_compute|]. split; [|split; [by vm_compute|by vm_compute]].
  cbn. set_solver.
Qed.

End StartTracker.

(** ** Run driver: what a run reads of the process state *)

Section Frame.

Lemma World_app_fresh_l d : World_app fresh_world d = d.
Proof.
  destruct d as [f r o]. unfold World_app. cbn. f_equal.
  apply map_eq. intros k. rewrite lookup_union_with, lookup_empty.
  by destruct (r !! k).
Qed.

Lemma World_app_fresh_r w : World_app w fresh_world = w.
Proof.
  destruct w as [f r o]. unfold World_app. cbn. rewrite !app_nil_r. f_equal.
  apply map_eq. intros k. rewrite lookup_union_with, lookup_empty.
  by destruct (r !! k).
Qed.

Lemma World_app_assoc w d1 d2 :
  World_app (World_app w d1) d2 = World_app w (World_app d1 d2).
Proof.
  unfold World_app. cbn. rewrite !app_assoc. f_equal.
  apply map_eq. intros k. rewrite !lookup_union_with.
  destruct (RESULTS w !! k), (RESULTS d1 !! k), (RESULTS d2 !! k); cbn;
    by rewrite ?app_assoc.
Qed.

Lemma framed_ret {A} (x : A) : framed (mret x).
Proof. intros w. cbn. by rewrite World_app_fresh_r. Qed.

Lemma framed_raise {A} e : framed (raise (A:=A) e).
Proof. intros w. cbn. by rewrite World_app_fresh_r. Qed.

Lemma framed_bind {A B} (m : Run A) (f : A → Run B) :
  framed m → (∀ x, framed (f x)) → framed (m ≫= f).
Proof.
  intros Hm Hf w. unfold mbind, Run_bind. rewrite (Hm w).
  destruct (m fresh_world) as [[x|e] d1]; cbn [fst snd]; [|done].
  rewrite (Hf x (World_app w d1)), (Hf x d1). cbn [fst snd].
  by rewrite World_app_assoc.
Qed.

Lemma framed_write_all l : framed (write_all l).
Proof. intros w. unfold write_all, World_app. cbn. f_equal. f_equal.
  - by rewrite app_nil_r.
  - apply map_eq. intros k. rewrite lookup_union_with, lookup_empty.
    by destruct (RESULTS w !! k).
Qed.

Lemma framed_write s : framed (write s).
Proof. apply (framed_write_all [s]). Qed.

Lemma framed_record_fail test : framed (record_fail test).
Proof. intros w. unfold record_fail, World_app. cbn. f_equal. f_equal.
  - apply map_eq. intros k. rewrite lookup_union_with, lookup_empty.
    by destruct (RESULTS w !! k).
  - by rewrite app_nil_r.
Qed.

Lemma framed_record_result worker test : framed (record_result worker test).
Proof.
  intros w. rewrite !record_result_insert. unfold World_app. cbn.
  rewrite !app_nil_r. f_equal. f_equal.
  apply map_eq. intros k. rewrite lookup_union_with.
  destruct (decide (worker = k)) as [<-|].
  - rewrite !lookup_insert_eq, lookup_empty. by destruct (RESULTS w !! worker).
  - rewrite !lookup_insert_ne, lookup_empty by done. by destruct (RESULTS w !! k).
Qed.

Lemma framed_print_attachments test all_channels :
  framed (print_attachments test all_channels).
Proof.
  intros w. unfold print_attachments, World_app. cbn. f_equal. f_equal.
  - by rewrite app_nil_r.
  - apply map_eq. intros k. rewrite lookup_union_with, lookup_empty.
    by destruct (RESULTS w !! k).
Qed.

Lemma framed_show_outcome test : framed (show_outcome test).
Proof.
  unfold show_outcome, lift_worker.
  repeat first
    [ apply framed_ret | apply framed_raise | apply framed_write
    | apply framed_print_attachments | apply framed_record_fail
    | apply framed_record_result
    | apply framed_bind; [|intros ?]
    | case_match ].
Qed.

Lemma framed_show_outcomes tests : framed (show_outcomes tests).
Proof.
  induction tests as [|test tests IH]; cbn [show_outcomes].
  - apply framed_ret.
  - apply framed_bind; [apply framed_show_outcome|done].
Qed.

Lemma framed_status obs ev : framed_step (status obs ev).
Proof.
  intros w. unfold status.
  destruct (Starts_raised ev) as [e|].
  { cbn [fst snd]. by rewrite World_app_fresh_r. }
  destruct (Starts_status (starts obs) ev) as [st out].
  rewrite (framed_write_all (render <$> out) w).
  destruct (write_all (render <$> out) fresh_world) as [r0 d0] eqn:E0.
  cbn [fst snd].
  destruct (StreamToDict_status (outcomes obs) ev) as [m finished].
  rewrite (framed_show_outcomes (option_list finished) (World_app w d0)).
  rewrite (framed_show_outcomes (option_list finished) d0).
  destruct (show_outcomes (option_list finished) fresh_world) as [[[]|e] d1];
    cbn [fst snd].
  - cbn [summary]. destruct (StreamSummary_status (summary obs) ev) as [s e].
    cbn [fst snd]. by rewrite World_app_assoc.
  - by rewrite World_app_assoc.
Qed.

Lemma framed_run evs obs : framed_step (run obs evs).
Proof.
  revert obs. induction evs as [|ev evs IH]; intros obs w; cbn [run].
  - cbn. by rewrite World_app_fresh_r.
  - rewrite (framed_status obs ev w).
    destruct (status obs ev fresh_world) as [[[e|] obs1] d1]; cbn [fst snd].
    + done.
    + rewrite (IH obs1 (World_app w d1)), (IH obs1 d1).
      cbn [fst snd]. by rewrite World_app_assoc.
Qed.

Lemma framed_stopTestRun obs : framed_step (stopTestRun obs).
Proof.
  intros w. unfold stopTestRun.
  rewrite (framed_show_outcomes _ w).
  destruct (show_outcomes _ fresh_world) as [[[]|e] d1]; cbn [fst snd]; [|done].
  by destruct (StreamSummary_stopTestRun (summary obs)) as [s e].
Qed.

Lemma framed_main evs : framed (main evs).
Proof.
  intros w. unfold main.
  rewrite (framed_run evs startTestRun w).
  destruct (run startTestRun evs fresh_world) as [[raised obs] d1]. cbn [fst snd].
  rewrite (framed_stopTestRun obs (World_app w d1)).
  rewrite (framed_stopTestRun obs d1).
  destruct (stopTestRun obs fresh_world) as [[raised' obs'] d2]. cbn [fst snd].
  rewrite World_app_assoc.
  by destruct raised', raised.
Qed.

(** C9, the claim as stated: after a run that recorded a failure, a
    second run over an empty stream ends with that failure in its
    failure list, and a run in a fresh process does not. *)
Lemma runs_interfere :
  ¬ runs_independent [event (Some "test_b") (Some "fail") None None] [].
Proof. unfold runs_independent. vm_compute. discriminate. Qed.

(** C9, amended: the failure list and the buckets are module-level
    state that [main] never resets.  A run started in the state [w] an
    earlier run left returns the exit status, or raises the exception, of
    the same run in a fresh process, and writes the same output; its
    failure list is the earlier one followed by the failures of that
    fresh run, and each bucket is the earlier bucket followed by the
    fresh one. *)
Theorem main_extends_process_state (evs : list Event) (w : World) :
  let '(r, d) := main evs fresh_world in
  ∃ w', main evs w = (r, w') ∧
        stdout w' = stdout w ++ stdout d ∧
        FAILS w' = FAILS w ++ FAILS d ∧
        ∀ worker, default [] (RESULTS w' !! worker)
                  = default [] (RESULTS w !! worker) ++ default [] (RESULTS d !! worker).
Proof.
  pose proof (framed_main evs w) as E.
  destruct (main evs fresh_world) as [r d]. cbn [fst snd] in E.
  eexists. split; [exact E|]. cbn [stdout FAILS RESULTS World_app].
  repeat split. intros worker. rewrite lookup_union_with.
  destruct (RESULTS w !! worker), (RESULTS d !! worker); cbn; by rewrite ?app_nil_r.
Qed.

End Frame.

(** ** Run driver: the exit status *)

Section ExitStatus.

Lemma show_outcome_FAILS test w r w' :
  show_outcome test w = (r, w') →
  FAILS w' = FAILS w ∨ (FAILS w' = FAILS w ++ [test] ∧ d_status test = "fail").
Proof.
  unfold show_outcome.
  destruct (String.eqb (d_status test) "exists"); [intros [= <- <-]; by left|].
  destruct (find_worker test) as [worker|e]; run_steps;
    [|intros [= <- <-]; by left].
  rewrite record_result_insert.
  unfold record_fail, write, print_attachments, write_all.
  destruct (String.eqb _ "process-returncode"); [intros [= <- <-]; by left|].
  destruct (String.eqb _ "success"); [intros [= <- <-]; by left|].
  destruct (String.eqb_spec (d_status test) "fail");
    [intros [= <- <-]; by right|].
  repeat case_match; cbn; intros [= <- <-]; by left.
Qed.

Lemma show_outcomes_FAILS tests w r w' :
  show_outcomes tests w = (r, w') → FAILS w' ≠ FAILS w →
  ∃ t, t ∈ tests ∧ d_status t = "fail".
Proof.
  revert w. induction tests as [|test tests IH]; intros w; cbn [show_outcomes].
  { by intros [= <- <-]. }
  unfold mbind, Run_bind.
  destruct (show_outcome test w) as [[[]|e] w1] eqn:E1.
  - intros E Hne. destruct (show_outcome_FAILS _ _ _ _ E1) as [Hf|[_ Hs]].
    + rewrite <- Hf in Hne. destruct (IH _ E Hne) as (t & ? & ?).
      exists t. split; [by right|done].
    + exists test. split; [by left|done].
  - intros [= <- <-] Hne. destruct (show_outcome_FAILS _ _ _ _ E1) as [Hf|[_ Hs]].
    + done.
    + exists test. split; [by left|done].
Qed.

Lemma gather_test_ok self test self' :
  StreamSummary_gather_test self test = (self', None) →
  s_inprogress self' = s_inprogress self ∧
  failures self' = failures self ∧
  errors self' = errors self ++ List.filter counts_as_error [test].
Proof.
  unfold StreamSummary_gather_test, counts_as_error, status_in. cbn [List.filter].
  destruct (String.eqb_spec (d_status test) "exists") as [->|].
  { intros [= <-]. by rewrite app_nil_r. }
  destruct (String.eqb_spec (d_status test) "success") as [->|].
  { intros [= <-]. cbn. by rewrite app_nil_r. }
  destruct (String.eqb_spec (d_status test) "skip") as [->|].
  { intros [= <-]. cbn. by rewrite app_nil_r. }
  destruct (String.eqb_spec (d_status test) "fail") as [->|].
  { by intros [= <-]. }
  destruct (String.eqb_spec (d_status test) "xfail") as [->|].
  { intros [= <-]. cbn. by rewrite app_nil_r. }
  destruct (String.eqb_spec (d_status test) "uxsuccess") as [->|].
  { intros [= <-]. cbn. by rewrite app_nil_r. }
  destruct (bool_decide_reflect (d_status test ∈ ["unknown"; "inprogress"])) as [Hin|];
    [|done].
  rewrite bool_decide_eq_true_2 by set_solver. by intros [= <-].
Qed.

Lemma gather_all_ok tests self self' :
  StreamSummary_gather_all self tests = (self', None) →
  s_inprogress self' = s_inprogress self ∧
  failures self' = failures self ∧
  errors self' = errors self ++ List.filter counts_as_error tests.
Proof.
  revert self. induction tests as [|test tests IH]; intros self;
    cbn [StreamSummary_gather_all].
  { intros [= <-]. by rewrite app_nil_r. }
  destruct (StreamSummary_gather_test self test) as [self1 [e|]] eqn:E1; [done|].
  intros E. destruct (gather_test_ok _ _ _ E1) as (H1 & H2 & H3).
  destruct (IH _ E) as (H4 & H5 & H6).
  rewrite H4, H5, H6, H1, H2, H3.
  change (test :: tests) with ([test] ++ tests).
  by rewrite List.filter_app, app_assoc.
Qed.

(** One event without an exception: [outcomes] and [summary] build the
    same dictionaries. *)
Lemma status_ok obs ev w obs' w' :
  status obs ev w = (None, obs', w') →
  outcomes obs = s_inprogress (summary obs) →
  let '(m, finished) := StreamToDict_status (outcomes obs) ev in
  outcomes obs' = m ∧ s_inprogress (summary obs') = m ∧
  failures (summary obs') = failures (summary obs) ∧
  errors (summary obs')
    = errors (summary obs) ++ List.filter counts_as_error (option_list finished) ∧
  (FAILS w' ≠ FAILS w → ∃ t, t ∈ option_list finished ∧ d_status t = "fail").
Proof.
  unfold status. intros E Hinv.
  destruct (Starts_raised ev) as [e0|]; [done|].
  destruct (Starts_status (starts obs) ev) as [st out].
  destruct (write_all (render <$> out) w) as [r0 w0] eqn:E0.
  assert (FAILS w0 = FAILS w) as Hw0 by (by injection E0 as _ <-).
  unfold StreamSummary_status in E. cbn [summary] in E. rewrite <- Hinv in E.
  destruct (StreamToDict_status (outcomes obs) ev) as [m finished].
  destruct (show_outcomes (option_list finished) w0) as [[[]|e] w1] eqn:E1; [|done].
  assert (FAILS w' ≠ FAILS w → ∃ t, t ∈ option_list finished ∧ d_status t = "fail")
    as Hfails.
  { intros Hne. eapply show_outcomes_FAILS; [exact E1|].
    rewrite Hw0. destruct finished;
      repeat case_match; by simplify_eq. }
  destruct finished as [test|]; cbn [option_list List.filter] in *.
  - destruct (StreamSummary_gather_test _ test) as [s e] eqn:Eg.
    injection E as -> <- <-. cbn [outcomes summary].
    destruct (gather_test_ok _ _ _ Eg) as (H1 & H2 & H3).
    cbn [s_inprogress failures errors with_inprogress] in *.
    by rewrite H1, H2, H3.
  - injection E as <- <-. cbn. by rewrite app_nil_r.
Qed.

Lemma run_ok evs obs w obs' w' :
  run obs evs w = (None, obs', w') →
  outcomes obs = s_inprogress (summary obs) →
  let '(l, m) := emitted (outcomes obs) evs in
  outcomes obs' = m ∧ s_inprogress (summary obs') = m ∧
  failures (summary obs') = failures (summary obs) ∧
  errors (summary obs') = errors (summary obs) ++ List.filter counts_as_error l ∧
  (FAILS w' ≠ FAILS w → ∃ t, t ∈ l ∧ d_status t = "fail").
Proof.
  revert obs w. induction evs as [|ev evs IH]; intros obs w; cbn [run emitted].
  { intros [= <- <-] Hinv. by rewrite app_nil_r. }
  destruct (status obs ev w) as [[[e|] obs1] w1] eqn:E1; [done|].
  intros E Hinv. pose proof (status_ok _ _ _ _ _ E1 Hinv) as Hstep.
  destruct (StreamToDict_status (outcomes obs) ev) as [m finished].
  destruct Hstep as (Ho & Hs & Hf & He & Hfails).
  assert (outcomes obs1 = s_inprogress (summary obs1)) as Hinv1 by congruence.
  pose proof (IH _ _ E Hinv1) as Hrest. rewrite Ho in Hrest.
  destruct (emitted m evs) as [l m'].
  destruct Hrest as (Ho' & Hs' & Hf' & He' & Hfails').
  split; [done|]. split; [done|]. split; [congruence|]. split.
  - by rewrite He', He, List.filter_app, app_assoc.
  - intros Hne. destruct (decide (FAILS w1 = FAILS w)) as [Heq|Hne1].
    + rewrite <- Heq in Hne. destruct (Hfails' Hne) as (t & ? & ?).
      exists t. split; [|done]. apply elem_of_app. by right.
    + destruct (Hfails Hne1) as (t & ? & ?).
      exists t. split; [|done]. apply elem_of_app. by left.
Qed.

Lemma stopTestRun_ok obs w obs' w' :
  stopTestRun obs w = (None, obs', w') →
  outcomes obs = s_inprogress (summary obs) →
  let l := StreamToDict_stopTestRun (outcomes obs) in
  failures (summary obs') = failures (summary obs) ∧
  errors (summary obs') = errors (summary obs) ++ List.filter counts_as_error l ∧
  (FAILS w' ≠ FAILS w → ∃ t, t ∈ l ∧ d_status t = "fail").
Proof.
  unfold stopTestRun. intros E Hinv.
  destruct (show_outcomes _ w) as [[[]|e] w1] eqn:E1; [|done].
  unfold StreamSummary_stopTestRun in E. rewrite <- Hinv in E.
  destruct (StreamSummary_gather_all _ _) as [s e] eqn:Eg.
  injection E as -> <- <-. cbn [summary].
  destruct (gather_all_ok _ _ _ Eg) as (_ & H2 & H3).
  cbn [failures errors with_inprogress] in *.
  split; [done|]. split; [done|].
  intros Hne. by eapply show_outcomes_FAILS.
Qed.

Lemma filter_nil_Forall {A} (f : A → bool) l :
  List.filter f l = [] ↔ Forall (λ x, f x = false) l.
Proof.
  induction l as [|x l IH]; cbn; [by split; [constructor|]|].
  destruct (f x) eqn:E; split.
  - done.
  - intros [? _]%Forall_cons. congruence.
  - intros ?. constructor; [done|by apply IH].
  - intros [_ ?]%Forall_cons. by apply IH.
Qed.

(** C2, the claim as stated: a stream that holds one failing
    'process-returncode' test ends with exit status 1 and with an empty
    failure list. *)
Lemma exit_counterexample :
  ¬ exit_as_stated [event (Some "process-returncode") (Some "fail") None None].
Proof.
  intros H. destruct (H 1 _ eq_refl) as [[_ H0] _].
  discriminate (H0 eq_refl).
Qed.

(** C2, amended: [main] takes its exit status from the summary observer,
    not from the failure list.  When it returns, the status is 0 or 1,
    and it is 0 exactly when no dictionary of the run, handed out during
    the events or flushed at the end of the stream, has the status
    'fail', 'unknown' or 'inprogress'.  A run that adds a record to the
    failure list therefore exits with 1. *)
Theorem main_exit_status (evs : list Event) (w w' : World) (r : Z) :
  main evs w = (inl r, w') →
  (r = 0 ∨ r = 1) ∧
  (r = 0 ↔ Forall (λ t, counts_as_error t = false) (records evs)) ∧
  (FAILS w' ≠ FAILS w → r = 1).
Proof.
  unfold main, records. intros E.
  destruct (run startTestRun evs w) as [[raised obs] w1] eqn:E1.
  destruct (stopTestRun obs w1) as [[raised' obs'] w2] eqn:E2.
  destruct raised' as [e|]; [done|]. destruct raised as [e|]; [done|].
  injection E as <- <-.
  pose proof (run_ok _ _ _ _ _ E1 eq_refl) as Hrun. cbn [outcomes startTestRun] in Hrun.
  destruct (emitted [] evs) as [l m].
  destruct Hrun as (Ho & Hs & Hf & He & Hfails).
  assert (outcomes obs = s_inprogress (summary obs)) as Hinv by congruence.
  destruct (stopTestRun_ok _ _ _ _ E2 Hinv) as (Hf' & He' & Hfails').
  rewrite Ho in He', Hfails'.
  assert (failures (summary obs') = []) as Hnf by (by rewrite Hf', Hf).
  assert (errors (summary obs')
          = List.filter counts_as_error (l ++ StreamToDict_stopTestRun m)) as Herr.
  { by rewrite He', He, List.filter_app. }
  unfold wasSuccessful. rewrite Hnf, Herr, <- filter_nil_Forall.
  rewrite bool_decide_eq_true_2 by done. cbn [andb].
  split; [case_bool_decide; auto|]. split.
  - case_bool_decide; split; done.
  - intros Hne.
    assert (∃ t, t ∈ l ++ StreamToDict_stopTestRun m ∧ d_status t = "fail")
      as (t & Hin & Hst).
    { destruct (decide (FAILS w1 = FAILS w)) as [Heq|Hne1].
      - rewrite <- Heq in Hne. destruct (Hfails' Hne) as (t & ? & ?).
        exists t. split; [|done]. apply elem_of_app. by right.
      - destruct (Hfails Hne1) as (t & ? & ?).
        exists t. split; [|done]. apply elem_of_app. by left. }
    assert (t ∈ List.filter counts_as_error (l ++ StreamToDict_stopTestRun m)) as Hmem.
    { apply list_elem_of_In, List.filter_In. split; [by apply list_elem_of_In|].
      unfold counts_as_error. by rewrite Hst. }
    case_bool_decide as Hnil; [|done].
    rewrite Hnil in Hmem. by apply elem_of_nil in Hmem.
Qed.

Lemma main_exit_status_witness :
  let evs := [event (Some "test_b") (Some "fail") (Some ["worker-1"]) None] in
  ¬ Forall (λ t, counts_as_error t = false) (records evs) ∧
  fst (main evs fresh_world) = inl 1.
Proof.
  intros evs.
  destruct (main_exit_status evs fresh_world (snd (main evs fresh_world)) 1 eq_refl)
    as (_ & Hiff & _).
  split; [|reflexivity]. intros H. apply Hiff in H. discriminate H.
Defined.

End ExitStatus.

(** * Further properties of the script *)

(** ** Worker tags *)

Section WorkerTags.

Import PyFmt.

Lemma rev_app_rev_app s t :
  String.rev_app (String.rev_app s t) EmptyString = String.rev_app t s.
Proof.
  revert t. induction s as [|a s IH]; intros t; cbn [String.rev_app]; [done|].
  by rewrite IH.
Qed.

Lemma rev_rev s : String.rev (String.rev s) = s.
Proof. unfold String.rev. by rewrite rev_app_rev_app. Qed.

Lemma str_forall_rev_app p s t :
  str_forall p s = true → str_forall p t = true →
  str_forall p (String.rev_app s t) = true.
Proof.
  revert t. induction s as [|a s IH]; intros t; cbn [String.rev_app str_forall];
    [done|].
  intros [Ha Hs]%andb_true_iff Ht. apply IH; [done|].
  cbn [str_forall]. by rewrite Ha, Ht.
Qed.

Lemma rev_app_not_empty s a t : String.rev_app s (String a t) ≠ EmptyString.
Proof.
  revert a t. induction s as [|b s IH]; intros a t; cbn [String.rev_app]; [done|].
  apply IH.
Qed.

Lemma lstrip_nospace space s :
  str_forall (λ c, negb (space c)) s = true → lstrip_with space s = s.
Proof.
  destruct s as [|a s]; [done|]. cbn [str_forall lstrip_with].
  intros [Ha _]%andb_true_iff. by destruct (space a).
Qed.

Lemma strip_nospace space s :
  str_forall (λ c, negb (space c)) s = true → strip_with space s = s.
Proof.
  intros Hs. unfold strip_with. rewrite (lstrip_nospace space s Hs).
  rewrite lstrip_nospace; [apply rev_rev|].
  unfold String.rev. by apply str_forall_rev_app.
Qed.

Lemma digit_not_space c d :
  digit_value c = Some d → negb (int_space c) = true ∧ c ≠ "-"%char ∧ c ≠ "+"%char.
Proof. destruct c as [[] [] [] [] [] [] [] []]; by vm_compute. Qed.

(** On a string of digits the grouped reading is the plain one. *)
Lemma parse_grouped_digits s a b :
  str_forall (λ c, bool_decide (is_Some (digit_value c))) s = true →
  (s = EmptyString → b = true) →
  parse_grouped s a b = parse_digits s a.
Proof.
  revert a b. induction s as [|c s IH]; intros a b; cbn [str_forall parse_grouped parse_digits].
  { intros _ Hb. by rewrite Hb. }
  intros [Hc Hs]%andb_true_iff _.
  apply bool_decide_eq_true in Hc as [d ->]. by apply IH.
Qed.

Lemma parse_digits_chars s a v :
  parse_digits s a = Some v → str_forall (λ c, bool_decide (is_Some (digit_value c))) s = true.
Proof.
  revert a. induction s as [|c s IH]; intros a; cbn [parse_digits str_forall]; [done|].
  destruct (digit_value c) as [d|] eqn:E; [|done].
  intros ?%IH. by rewrite bool_decide_eq_true_2.
Qed.

Lemma str_forall_impl (p q : ascii → bool) s :
  (∀ c, p c = true → q c = true) → str_forall p s = true → str_forall q s = true.
Proof.
  intros Hpq. induction s as [|c s IH]; cbn [str_forall]; [done|].
  intros [Hc Hs]%andb_true_iff. by rewrite (Hpq _ Hc), IH.
Qed.

Lemma digits_chars n :
  0 ≤ n →
  digits n ≠ EmptyString ∧
  str_forall (λ c, bool_decide (is_Some (digit_value c))) (digits n) = true.
Proof.
  intros Hn. destruct (digits_spec n Hn) as [Hv _].
  split; [|by eapply parse_digits_chars].
  destruct (digits_go_spec (S (Z.to_nat (Z.log2 n))) n EmptyString
              ltac:(lia) (conj Hn (digits_fuel n Hn))) as (k & Hk & Hlen & _).
  fold (digits n) in Hlen. intros E. rewrite E in Hlen. cbn in Hlen. lia.
Qed.

Lemma digits_nospace n :
  0 ≤ n → str_forall (λ c, negb (int_space c)) (digits n) = true.
Proof.
  intros Hn. eapply str_forall_impl; [|by apply digits_chars].
  intros c [d Hd]%bool_decide_eq_true. by eapply digit_not_space.
Qed.

(** [int('%d' % n)] is [n]. *)
Lemma int_pct_d n : int (pct_d n) = Some n.
Proof.
  assert (∀ m, 0 ≤ m → parse_grouped (digits m) 0 false = Some m) as Hparse.
  { intros m Hm. destruct (digits_chars m Hm) as [Hne Hch].
    destruct (digits_spec m Hm) as [Hv _].
    rewrite parse_grouped_digits; done. }
  unfold pct_d, int. destruct (Z.ltb_spec n 0) as [Hneg|Hpos].
  - rewrite strip_nospace
      by (cbn [str_forall]; rewrite digits_nospace by lia; done).
    rewrite Hparse by lia. cbn. f_equal. lia.
  - destruct (digits_chars n Hpos) as [Hne Hch].
    specialize (Hparse n Hpos).
    rewrite strip_nospace by (by apply digits_nospace).
    destruct (digits n) as [|c r] eqn:E; [done|].
    cbn [str_forall] in Hch. apply andb_true_iff in Hch as [Hc _].
    apply bool_decide_eq_true in Hc as [d Hd].
    destruct (digit_not_space _ _ Hd) as (_ & Hm & Hp).
    clear E Hne Hd.
    destruct c as [[] [] [] [] [] [] [] []]; try done;
      cbv iota beta; rewrite Hparse; done.
Qed.

(** What [int] takes besides plain digits: a sign, grouped digits, and
    white space around the number, the no-break space included; and what
    it refuses. *)
Lemma int_readings :
  int "1_0" = Some 10 ∧ int "+007" = Some 7 ∧ int "-12" = Some (-12) ∧
  int (String "160" "7 ") = Some 7 ∧
  int "1__0" = None ∧ int "_1" = None ∧ int "1_" = None ∧ int "- 1" = None ∧
  int (String "031" "7") = None ∧ int "" = None ∧ int "abc" = None.
Proof. by vm_compute. Qed.

Lemma find_worker_tags_skip pre rest :
  Forall (λ t, has_worker_prefix t = false) pre →
  find_worker_tags (pre ++ rest) = find_worker_tags rest.
Proof.
  unfold has_worker_prefix. induction 1 as [|t pre Ht _ IH]; [done|].
  cbn [app find_worker_tags]. by rewrite Ht.
Qed.

Lemma find_worker_tags_cons tag rest :
  find_worker_tags (tag :: rest)
  = if PyStr.startswith tag "worker-"
    then match int (PyStr.slice_from tag 7) with
         | Some n => inl (WorkerId n)
         | None => inr ValueError
         end
    else find_worker_tags rest.
Proof. reflexivity. Qed.

Lemma worker_tag_parts s :
  PyStr.startswith ("worker-" +:+ s) "worker-" = true ∧
  PyStr.slice_from ("worker-" +:+ s) 7 = s.
Proof. split; [by destruct s|reflexivity]. Qed.

(** Without a tag that starts with 'worker-' the resolver returns the
    sentinel 'NaN', and it returns it in no other case. *)
Theorem find_worker_unassigned (test : TestDict) :
  find_worker test = inl NaN ↔
  Forall (λ t, has_worker_prefix t = false) (d_tags test).
Proof.
  unfold find_worker, has_worker_prefix.
  induction (d_tags test) as [|t tags IH]; cbn [find_worker_tags].
  - split; [constructor|done].
  - destruct (PyStr.startswith t "worker-") eqn:E.
    + split; [by destruct (int _)|]. intros [? _]%Forall_cons. congruence.
    + rewrite IH. split; [by constructor|by intros [_ ?]%Forall_cons].
Qed.

Lemma find_worker_unassigned_witness :
  find_worker (test_of "test_a" "success" ["smoke"; "gate"]) = inl NaN.
Proof.
  apply (proj2 (find_worker_unassigned (test_of "test_a" "success" ["smoke"; "gate"]))).
  by repeat constructor.
Defined.

(** The first tag that starts with 'worker-' decides: when it is
    'worker-' followed by the decimal writing of an integer [n], the
    resolver returns [n], whatever the later tags are, and ['%s'] of the
    result is that writing again. *)
Theorem find_worker_first_numbered (test : TestDict) (pre post : list string) (n : Z) :
  d_tags test = pre ++ ("worker-" +:+ pct_d n) :: post →
  Forall (λ t, has_worker_prefix t = false) pre →
  find_worker test = inl (WorkerId n) ∧ Worker_str (WorkerId n) = pct_d n.
Proof.
  intros Ht Hpre. split; [|done]. unfold find_worker.
  rewrite Ht, find_worker_tags_skip by done.
  rewrite find_worker_tags_cons.
  destruct (worker_tag_parts (pct_d n)) as [-> ->].
  by rewrite int_pct_d.
Qed.

Lemma find_worker_first_numbered_witness :
  find_worker (test_of "test_a" "success" ["smoke"; "worker-12"; "worker-x"])
    = inl (WorkerId 12).
Proof.
  apply (find_worker_first_numbered
           (test_of "test_a" "success" ["smoke"; "worker-12"; "worker-x"])
           ["smoke"] ["worker-x"] 12); [reflexivity|by repeat constructor].
Defined.

Lemma worker_label_app l1 l2 w :
  worker_label (l1 ++ l2) w = worker_label l2 (worker_label l1 w).
Proof. revert w. induction l1 as [|t l1 IH]; intros w; cbn; [done|]. by rewrite IH. Qed.

Lemma worker_label_none tags w :
  Forall (λ t, has_worker_prefix t = false) tags → worker_label tags w = w.
Proof.
  unfold has_worker_prefix. intros H. revert w.
  induction H as [|t tags Ht _ IH]; intros w; cbn [worker_label]; [done|].
  by rewrite Ht, IH.
Qed.

(** The label the tracker puts in a start line comes from the last tag
    that starts with 'worker-', where the resolver reads the first one:
    whatever precedes that tag, the label is its remainder between
    parentheses, and the remainder need not be a number. *)
Theorem worker_label_last (pre post : list string) (tag init : string) :
  has_worker_prefix tag = true →
  Forall (λ t, has_worker_prefix t = false) post →
  worker_label (pre ++ tag :: post) init = "(" +:+ PyStr.slice_from tag 7 +:+ ") ".
Proof.
  unfold has_worker_prefix. intros Ht Hpost.
  rewrite worker_label_app. cbn [worker_label]. rewrite Ht.
  by apply worker_label_none.
Qed.

Lemma worker_label_last_witness :
  worker_label ["worker-1"; "smoke"; "worker-abc"; "gate"] "" = "(abc) ".
Proof.
  apply (worker_label_last ["worker-1"; "smoke"] ["gate"] "worker-abc" "");
    [reflexivity|by repeat constructor].
Defined.

End WorkerTags.

(** ** Failure list, skips and the failure summary *)

Section Tallies.

Lemma show_outcome_FAILS_exact test w w' :
  show_outcome test w = (inl (), w') →
  FAILS w' = FAILS w ++ (if counted_fail test then [test] else []).
Proof.
  unfold show_outcome, counted_fail.
  destruct (String.eqb_spec (d_status test) "exists") as [->|Hs].
  { intros [= <-]. cbn. by rewrite app_nil_r. }
  destruct (find_worker test) as [worker|e]; run_steps; [|done].
  rewrite record_result_insert.
  unfold record_fail, write, print_attachments, write_all.
  destruct (String.eqb _ "process-returncode").
  { intros [= <-]. cbn. rewrite andb_false_r. by rewrite app_nil_r. }
  destruct (String.eqb_spec (d_status test) "success") as [->|].
  { intros [= _ <-]. cbn. by rewrite app_nil_r. }
  destruct (String.eqb_spec (d_status test) "fail"); [by intros [= _ <-]|].
  repeat case_match; cbn; try done; intros [= <-]; cbn; by rewrite app_nil_r.
Qed.

(** A record of the failure list for which the aggregator has returned
    has attachments the printer prints without an exception. *)
Lemma show_outcome_fail_prints test w w' :
  show_outcome test w = (inl (), w') → counted_fail test = true →
  print_attachments_raised test true = None.
Proof.
  unfold counted_fail.
  intros E [Hf Hn]%andb_true_iff.
  apply String.eqb_eq in Hf. apply negb_true_iff, String.eqb_neq in Hn.
  destruct (find_worker test) as [worker|e] eqn:Ew.
  - rewrite (show_outcome_reports test worker) in E by (done || by rewrite Hf).
    rewrite Hf in E. cbn [String.eqb Ascii.eqb Bool.eqb negb] in E.
    by destruct (print_attachments_raised test true).
  - unfold show_outcome in E. rewrite Hf, Ew in E. by cbn in E.
Qed.

Lemma show_outcomes_fail_prints tests w w' :
  show_outcomes tests w = (inl (), w') →
  Forall (λ f, print_attachments_raised f true = None) (List.filter counted_fail tests).
Proof.
  revert w. induction tests as [|test tests IH]; intros w; cbn [show_outcomes List.filter].
  { constructor. }
  unfold mbind, Run_bind.
  destruct (show_outcome test w) as [[[]|e] w1] eqn:E1; [|done].
  intros E. destruct (counted_fail test) eqn:Ec; [|by eapply IH].
  constructor; [by eapply show_outcome_fail_prints|by eapply IH].
Qed.

Lemma show_outcomes_tallies tests w w' :
  show_outcomes tests w = (inl (), w') →
  FAILS w' = FAILS w ++ List.filter counted_fail tests ∧
  bucket_total (RESULTS w')
  = (bucket_total (RESULTS w) + length (List.filter (λ t, negb (is_exists t)) tests))%nat.
Proof.
  revert w. induction tests as [|test tests IH]; intros w; cbn [show_outcomes].
  { intros [= <-]. cbn. rewrite app_nil_r. split; [done|lia]. }
  unfold mbind, Run_bind.
  destruct (show_outcome test w) as [[[]|e] w1] eqn:E1; [|done].
  intros E. destruct (IH _ E) as [-> ->].
  rewrite (show_outcome_FAILS_exact _ _ _ E1), (show_outcome_bucket _ _ _ E1).
  cbn [List.filter]. split.
  - destruct (counted_fail test); cbn; by rewrite <- ?app_assoc.
  - destruct (is_exists test); cbn; lia.
Qed.

(** The failure list holds, in the order the aggregator met them, the
    records with status 'fail' whose normalized name is not
    'process-returncode': when the aggregator has returned for each
    record of a list, the failure list has grown by exactly those. *)
Theorem show_outcomes_FAILS_exact (tests : list TestDict) (w w' : World) :
  show_outcomes tests w = (inl (), w') →
  FAILS w' = FAILS w ++ List.filter counted_fail tests.
Proof. intros E. by destruct (show_outcomes_tallies _ _ _ E). Qed.

Lemma show_outcomes_FAILS_exact_witness :
  let tests := [test_of "test_a" "fail" ["worker-0"];
                test_of "process-returncode" "fail" [];
                test_of "test_b" "success" [];
                test_of "test_c" "fail" []] in
  FAILS (snd (show_outcomes tests fresh_world))
  = [test_of "test_a" "fail" ["worker-0"]; test_of "test_c" "fail" []].
Proof.
  intros tests.
  exact (show_outcomes_FAILS_exact tests fresh_world
           (snd (show_outcomes tests fresh_world)) eq_refl).
Defined.

(** A skipped record whose worker resolves and whose normalized name is
    not 'process-returncode' is put in its worker's bucket first.  With a
    'reason' attachment of a text type that decodes, the aggregator then
    writes one line, [{worker} name ... SKIPPED: <reason>], with no
    duration and no attachment block.  With a reason of another type,
    which nothing retypes on this path, or one that does not decode, it
    raises the exception of [as_text]; without a reason it raises
    [KeyError]; in both cases the record stays in the bucket and nothing
    is written.  The failure list is left alone in every case. *)
Theorem show_outcome_skip (test : TestDict) (worker : Worker) (w : World) :
  d_status test = "skip" →
  cleanup_test_name_default (d_id test) ≠ "process-returncode" →
  find_worker test = inl worker →
  let bucketed out :=
    {| FAILS := FAILS w;
       RESULTS := <[worker := default [] (RESULTS w !! worker) ++ [test]]> (RESULTS w);
       stdout := stdout w ++ out |} in
  show_outcome test w =
    match details_get "reason" (d_details test) with
    | Some reason =>
        if String.eqb (content_type_type reason) "text" then
          match text reason with
          | Some reason_text =>
              (inl (), bucketed ["{" +:+ Worker_str worker +:+ "} "
                                   +:+ cleanup_test_name_default (d_id test)
                                   +:+ " ... SKIPPED: " +:+ reason_text +:+ nl])
          | None => (inr DecodeError, bucketed [])
          end
        else (inr ValueError, bucketed [])
    | None => (inr KeyError, bucketed [])
    end.
Proof.
  intros Hs Hn Hw. unfold show_outcome. rewrite Hs, Hw.
  change ("skip" =? "exists")%string with false. cbv iota.
  run_steps. rewrite record_result_insert.
  destruct (String.eqb_spec (cleanup_test_name_default (d_id test))
              "process-returncode"); [done|].
  change ("skip" =? "success")%string with false.
  change ("skip" =? "fail")%string with false.
  change ("skip" =? "skip")%string with true. cbv iota.
  destruct (details_get "reason" (d_details test)) as [reason|].
  - unfold as_text.
    destruct (String.eqb (content_type_type reason) "text").
    + destruct (text reason) as [reason_text|].
      * unfold write. cbn. reflexivity.
      * cbn. by rewrite app_nil_r.
    + cbn. by rewrite app_nil_r.
  - cbn. by rewrite app_nil_r.
Qed.

Lemma show_outcome_skip_witness :
  let test :=
    {| d_id := "test_s"; d_tags := ["worker-2"];
       d_details := [("reason", {| content_type_type := "test";
                                   text := Some "not today" |})];
       d_status := "skip"; d_timestamps := (None, None) |} in
  show_outcome test fresh_world
  = (inr ValueError,
     {| FAILS := []; RESULTS := {[ WorkerId 2 := [test] ]}; stdout := [] |}).
Proof.
  intros test.
  exact (show_outcome_skip test (WorkerId 2)
           fresh_world eq_refl ltac:(discriminate) eq_refl).
Defined.

Lemma print_fails_loop_writes fails w :
  Forall (λ f, print_attachments_raised f true = None) fails →
  print_fails_loop fails w
  = (inl (), {| FAILS := FAILS w; RESULTS := RESULTS w;
                stdout := stdout w ++ concat (fail_block <$> fails) |}).
Proof.
  intros Hfails. revert w.
  induction Hfails as [|f fails Hf _ IH]; intros w; cbn [print_fails_loop].
  { cbn. rewrite app_nil_r. by destruct w. }
  run_steps. unfold write, print_attachments. cbn [FAILS RESULTS stdout].
  rewrite Hf, IH. cbn [FAILS RESULTS stdout fmap list_fmap concat fail_block].
  by rewrite <- !app_assoc.
Qed.

Lemma print_fails_writes w :
  Forall (λ f, print_attachments_raised f true = None) (FAILS w) →
  print_fails w
  = (inl (), {| FAILS := FAILS w; RESULTS := RESULTS w;
                stdout := stdout w ++ fails_summary (FAILS w) |}).
Proof.
  intros Hfails.
  unfold print_fails, fails_summary. destruct (FAILS w) as [|f fails] eqn:E.
  { rewrite app_nil_r. destruct w. cbn in E. by subst. }
  run_steps. unfold write. cbn [FAILS RESULTS stdout].
  rewrite print_fails_loop_writes by done.
  cbn [FAILS RESULTS stdout]. rewrite E.
  by rewrite <- !app_assoc.
Qed.

(** The failure summary after a run of the aggregator that started with
    an empty failure list and returned for each record: it reports the
    records with status 'fail' whose normalized name is not
    'process-returncode', and nothing at all when there is none; it
    changes neither the failure list nor the buckets.  It does not raise:
    the aggregator has printed every attachment of these records before,
    so each of them is text. *)
Theorem print_fails_after_outcomes (tests : list TestDict) (w w' : World) :
  FAILS w = [] →
  show_outcomes tests w = (inl (), w') →
  print_fails w'
  = (inl (), {| FAILS := FAILS w'; RESULTS := RESULTS w';
                stdout := stdout w' ++ fails_summary (List.filter counted_fail tests) |}).
Proof.
  intros Hf E.
  destruct (show_outcomes_tallies _ _ _ E) as [Hfails _]. rewrite Hf in Hfails.
  cbn [app] in Hfails.
  rewrite print_fails_writes; rewrite Hfails; [done|].
  by eapply show_outcomes_fail_prints.
Qed.

Lemma print_fails_after_outcomes_witness :
  let test :=
    {| d_id := "test_b"; d_tags := ["worker-1"];
       d_details := [("traceback", {| content_type_type := "text";
                                      text := Some "boom" |})];
       d_status := "fail"; d_timestamps := (None, None) |} in
  let w' := snd (show_outcomes [test] fresh_world) in
  print_fails w'
  = (inl (), {| FAILS := [test]; RESULTS := RESULTS w';
                stdout := stdout w'
                  ++ [rule_line; "Failed 1 tests - output below:"; rule_line;
                      nl +:+ "test_b" +:+ nl; "------" +:+ nl;
                      nl +:+ "Captured traceback:" +:+ nl +:+ "~~~~~~~~~~~~~~~~~~~"
                         +:+ nl;
                      "    boom" +:+ nl; nl] |}).
Proof.
  intros test w'.
  exact (print_fails_after_outcomes [test] fresh_world w' eq_refl eq_refl).
Defined.

End Tallies.

(** ** Attachment blocks *)

Section Attachments.

Lemma split_length c s : length (PyStr2.split c s) = S (PyStr.count c s).
Proof.
  induction s as [|a s IH]; [done|]. cbn [PyStr2.split PyStr.count].
  destruct (Ascii.eqb a c); cbn [length]; [by rewrite IH|].
  destruct (PyStr2.split c s) as [|h t]; [done|]. cbn [length] in *. lia.
Qed.

Lemma split_join c s : join (String c EmptyString) (PyStr2.split c s) = s.
Proof.
  induction s as [|a s IH]; [done|]. cbn [PyStr2.split].
  pose proof (split_length c s) as Hl.
  destruct (Ascii.eqb_spec a c) as [->|].
  - destruct (PyStr2.split c s) as [|h t] eqn:E; [done|].
    cbn [join]. cbn [join] in IH. rewrite IH. reflexivity.
  - destruct (PyStr2.split c s) as [|h t] eqn:E; [done|].
    destruct t as [|h' t]; cbn [join] in *; [by rewrite IH|].
    rewrite app_cons. by rewrite IH.
Qed.

Lemma join_lines (l : list string) :
  l ≠ [] →
  join EmptyString ((λ line, line +:+ nl) <$> l) = join nl l +:+ nl.
Proof.
  induction l as [|x l IH]; [done|]. intros _.
  destruct l as [|y l]; [done|].
  cbn [fmap list_fmap join] in *. rewrite app_empty_l.
  rewrite IH by done. by rewrite !str_app_assoc.
Qed.

(** The block of an attachment the printer selects and reads as a
    non-empty text: a title line [Captured <name>:] with the name cut at
    its first colon, underlined by as many tildes as the title has
    characters, then one write for each line of the text, each indented
    by four spaces; without the indentation the writes put together are
    the text and a final newline, so nothing of the text is lost or
    reordered.  No exception ends the block. *)
Theorem print_attachment_block (all_channels : bool) (name : string) (detail : Content)
    (t : string) :
  selected all_channels (name, detail) = true →
  as_text (retyped detail) = inl t → t ≠ EmptyString →
  ∃ lines,
    print_attachment all_channels (name, detail)
      = ((nl +:+ attachment_title name +:+ nl
            +:+ PyStr.repeat "~" (String.length (attachment_title name)) +:+ nl)
           :: lines, None) ∧
    length lines = S (PyStr.count newline t) ∧
    Forall (λ line, PyStr.take 4 line = "    ") lines ∧
    join EmptyString (PyStr.drop 4 <$> lines) = t +:+ nl.
Proof.
  unfold selected, print_attachment, attachment_title. cbn [fst snd].
  intros -> -> Ht. destruct t as [|c t]; [done|]. cbn [PyStr.falsy].
  eexists. split; [reflexivity|]. split; [|split].
  - by rewrite length_fmap, split_length.
  - apply Forall_fmap, Forall_true. done.
  - rewrite <- list_fmap_compose.
    pose proof (split_length newline (String c t)) as Hl.
    change (PyStr.drop 4 ∘ (λ line, "    " +:+ line +:+ nl))
      with (λ line : string, line +:+ nl).
    rewrite join_lines by (by destruct (PyStr2.split _ _)).
    by rewrite (split_join newline).
Qed.

Lemma print_attachment_block_witness :
  ∃ lines,
    print_attachment true
      ("pythonlogging:''",
       {| content_type_type := "test"; text := Some ("one" +:+ nl +:+ "two") |})
    = ((nl +:+ "Captured pythonlogging:" +:+ nl +:+ "~~~~~~~~~~~~~~~~~~~~~~~" +:+ nl)
         :: lines, None)
    ∧ length lines = 2%nat.
Proof.
  destruct (print_attachment_block true "pythonlogging:''"
              {| content_type_type := "test"; text := Some ("one" +:+ nl +:+ "two") |}
              ("one" +:+ nl +:+ "two") eq_refl eq_refl ltac:(discriminate))
    as (lines & E & Hl & _).
  exists lines. split; [exact E|exact Hl].
Defined.

Lemma print_attachments_loop_silent all_channels details :
  print_attachments_loop all_channels details = ([], None)
  ↔ Forall (λ item, selected all_channels item = true →
                    as_text (retyped (snd item)) = inl EmptyString) details.
Proof.
  induction details as [|[name detail] details IH].
  { split; [constructor|done]. }
  rewrite Forall_cons, <- IH. clear IH.
  cbn [print_attachments_loop]. unfold print_attachment, selected. cbn [fst snd].
  destruct (all_channels || bool_decide (PyStr2.split_head ":" name ∈ channels)).
  - destruct (as_text (retyped detail)) as [t|e].
    + destruct (print_attachments_loop all_channels details) as [out raised].
      destruct t as [|c t]; cbn [PyStr.falsy app].
      * naive_solver.
      * split; [done|]. intros [H _]. by specialize (H eq_refl).
    + split; [done|]. intros [H _]. by specialize (H eq_refl).
  - destruct (print_attachments_loop all_channels details) as [out raised].
    cbn [app]. naive_solver.
Qed.

(** The printer returns without a write exactly when every attachment
    it selects is a text, after retyping, and is empty: an empty text is
    never printed, in the standard-only mode an attachment whose name,
    cut at its first colon, is not 'stdout' or 'stderr' is not looked
    at, and a selected attachment that is not text makes the printer
    raise. *)
Theorem print_attachments_silent (test : TestDict) (all_channels : bool) :
  (∀ w, print_attachments test all_channels w = (inl (), w)) ↔
  Forall (λ item, selected all_channels item = true →
                  as_text (retyped (snd item)) = inl EmptyString) (d_details test).
Proof.
  rewrite <- print_attachments_loop_silent.
  unfold print_attachments, print_attachments_raised, print_attachments_writes.
  destruct (print_attachments_loop all_channels (d_details test)) as [out raised].
  cbn [fst snd]. split.
  - intros H. specialize (H fresh_world). cbn in H.
    destruct raised; [done|]. injection H as ->. done.
  - intros [= -> ->] w. rewrite app_nil_r. by destruct w.
Qed.

Lemma print_attachments_silent_witness :
  print_attachments
    {| d_id := "test_a"; d_tags := [];
       d_details := [("traceback", {| content_type_type := "application";
                                      text := Some "boom" |});
                     ("stdout", {| content_type_type := "text"; text := Some "" |})];
       d_status := "success"; d_timestamps := (None, None) |} false fresh_world
  = (inl (), fresh_world).
Proof.
  apply (proj2 (print_attachments_silent _ false)). cbn [d_details].
  constructor; [by vm_compute|]. constructor; [by vm_compute|]. constructor.
Defined.

End Attachments.

(** ** Start tracker: what is marked, what is started *)

Section StartTrackerMore.

Lemma starts_test_true id ev :
  starts_test id ev = true ↔
  test_id ev = Some id ∧ id ≠ EmptyString ∧ test_status ev = Some "inprogress".
Proof.
  unfold starts_test. rewrite !andb_true_iff, !bool_decide_eq_true, negb_true_iff.
  destruct id; cbn; naive_solver.
Qed.

(** One event, for an identifier the tracker has not marked yet. *)
Lemma Starts_status_step self ev id :
  id ∉ _emitted self →
  let '(self', out) := Starts_status self ev in
  if starts_test id ev
  then id ∈ _emitted self' ∧
       start_lines id out
       = (match timestamp ev with Some _ => 0%nat | None => 1%nat end)
  else id ∉ _emitted self' ∧ start_lines id out = 0%nat.
Proof.
  intros Hid. unfold Starts_status.
  destruct (starts_test id ev) eqn:Est.
  - apply starts_test_true in Est as (Ei & Hne & Es).
    rewrite Ei, Es. destruct id as [|a id]; [done|].
    cbn [falsy_opt PyStr.falsy default from_option].
    rewrite bool_decide_eq_true_2 by done.
    rewrite bool_decide_eq_true_2 by done. cbn [andb].
    destruct (_neednewline self), (timestamp ev); cbn [_emitted];
      (split; [set_solver|]); unfold start_lines; cbn;
      rewrite ?String.eqb_refl, ?Ascii.eqb_refl; done.
  - assert (¬ (test_id ev = Some id ∧ id ≠ EmptyString
               ∧ test_status ev = Some "inprogress")) as Hnot.
    { rewrite <- starts_test_true. congruence. }
    destruct (falsy_opt (test_id ev)) eqn:Ef.
    { destruct (falsy_opt (file_bytes ev)); [done|].
      destruct (Starts_text ev) as [text|e]; [|done].
      by destruct (negb (PyStr.falsy text) && negb (ends_with_newline text)). }
    destruct (bool_decide_reflect (test_status ev = Some "inprogress")) as [Es|];
      cbn [andb]; [|done].
    destruct (bool_decide_reflect (default "" (test_id ev) ∉ _emitted self)) as [Hn|];
      [|done].
    assert (default "" (test_id ev) ≠ id) as Hdiff.
    { intros <-. apply Hnot. destruct (test_id ev) as [[|a i]|]; done. }
    destruct (_neednewline self), (timestamp ev); cbn [_emitted];
      (split; [set_solver|]); unfold start_lines; cbn;
      destruct (String.eqb_spec (default "" (test_id ev)) id); done.
Qed.

Lemma Starts_run_from_marks evs self id :
  id ∈ _emitted (fst (Starts_run_from self evs)) ↔
  id ∈ _emitted self ∨ Exists (λ ev, starts_test id ev = true) evs.
Proof.
  revert self. induction evs as [|ev evs IH]; intros self; cbn [Starts_run_from].
  { cbn. rewrite Exists_nil. naive_solver. }
  pose proof (Starts_status_spec self ev id) as Hspec.
  pose proof (Starts_status_step self ev id) as Hstep.
  destruct (Starts_status self ev) as [self1 out].
  specialize (IH self1).
  destruct (Starts_run_from self1 evs) as [self2 out'].
  cbn [fst] in *. rewrite IH, Exists_cons.
  destruct Hspec as (Hsub & _).
  destruct (decide (id ∈ _emitted self)) as [Hin|Hnot]; [set_solver|].
  specialize (Hstep Hnot). destruct (starts_test id ev); naive_solver.
Qed.

(** The identifiers the tracker has marked after a run are the non-empty
    identifiers that some event of the stream reported as 'inprogress',
    with or without a timestamp. *)
Theorem Starts_marks_inprogress (evs : list Event) (id : string) :
  id ∈ _emitted (fst (Starts_run evs)) ↔
  Exists (λ ev, test_id ev = Some id ∧ id ≠ EmptyString
                ∧ test_status ev = Some "inprogress") evs.
Proof.
  unfold Starts_run. rewrite Starts_run_from_marks.
  cbn [_emitted Starts_startTestRun]. rewrite !Exists_exists.
  setoid_rewrite starts_test_true. set_solver.
Qed.

Lemma Starts_marks_inprogress_witness :
  "test_a" ∈ _emitted (fst (Starts_run [test_a_inprogress; test_a_success])).
Proof.
  apply (proj2 (Starts_marks_inprogress [test_a_inprogress; test_a_success] "test_a")).
  apply Exists_cons_hd. by repeat split.
Defined.

Lemma Starts_run_from_start_line evs self id :
  id ∉ _emitted self →
  start_lines id (snd (Starts_run_from self evs))
  = match first_start id evs with
    | Some ev => match timestamp ev with Some _ => 0%nat | None => 1%nat end
    | None => 0%nat
    end.
Proof.
  revert self. induction evs as [|ev evs IH]; intros self Hid;
    cbn [Starts_run_from first_start List.find]; [done|].
  pose proof (Starts_status_step self ev id Hid) as Hstep.
  destruct (Starts_status self ev) as [self1 out].
  pose proof (Starts_run_from_spec evs self1 id) as [_ Hzero].
  specialize (IH self1). unfold first_start in IH.
  destruct (Starts_run_from self1 evs) as [self2 out'].
  cbn [snd] in *. rewrite start_lines_app.
  destruct (starts_test id ev).
  - destruct Hstep as [Hin ->]. rewrite (Hzero Hin). lia.
  - destruct Hstep as [Hnot ->]. by rewrite (IH Hnot).
Qed.

(** Whether a test gets its start line is decided by the first event
    that reports it as 'inprogress': the run holds one start line for the
    identifier when that event carries no timestamp, and none when it
    carries one or when there is no such event; later 'inprogress'
    events of the same test change nothing. *)
Theorem Starts_start_line_first_event (evs : list Event) (id : string) :
  start_lines id (snd (Starts_run evs))
  = match first_start id evs with
    | Some ev => match timestamp ev with Some _ => 0%nat | None => 1%nat end
    | None => 0%nat
    end.
Proof. apply Starts_run_from_start_line. cbn. set_solver. Qed.

Lemma count_writes_app p out out' :
  count_writes p (out ++ out') = (count_writes p out + count_writes p out')%nat.
Proof. unfold count_writes. by rewrite List.filter_app, length_app. Qed.

Lemma Starts_status_newlines self ev :
  let '(self', out) := Starts_status self ev in
  (count_writes is_newline_write out + (if _neednewline self' then 1 else 0)
   ≤ count_writes is_open_text out + (if _neednewline self then 1 else 0))%nat.
Proof.
  unfold Starts_status.
  destruct (falsy_opt (test_id ev)).
  { destruct (falsy_opt (file_bytes ev)); [cbn; lia|].
    destruct (Starts_text ev) as [text|e]; [|cbn; lia].
    unfold count_writes. cbn [List.filter is_newline_write is_open_text].
    destruct (negb (PyStr.falsy text) && negb (ends_with_newline text));
      cbn; destruct (_neednewline self); lia. }
  destruct (bool_decide (test_status ev = Some "inprogress")
            && bool_decide (default "" (test_id ev) ∉ _emitted self));
    [|cbn; lia].
  unfold count_writes.
  destruct (_neednewline self) eqn:En, (timestamp ev); cbn; rewrite ?En; lia.
Qed.

Lemma Starts_run_from_newlines evs self :
  let '(self', out) := Starts_run_from self evs in
  (count_writes is_newline_write out + (if _neednewline self' then 1 else 0)
   ≤ count_writes is_open_text out + (if _neednewline self then 1 else 0))%nat.
Proof.
  revert self. induction evs as [|ev evs IH]; intros self; cbn [Starts_run_from].
  { cbn. lia. }
  pose proof (Starts_status_newlines self ev) as Hstep.
  destruct (Starts_status self ev) as [self1 out].
  specialize (IH self1). destruct (Starts_run_from self1 evs) as [self2 out'].
  rewrite !count_writes_app. lia.
Qed.

(** The tracker writes a separating newline only for a free text that
    left its last line open: over a run there are never more of these
    newlines than such texts. *)
Theorem Starts_newlines_bounded (evs : list Event) :
  (count_writes is_newline_write (snd (Starts_run evs))
   ≤ count_writes is_open_text (snd (Starts_run evs)))%nat.
Proof.
  pose proof (Starts_run_from_newlines evs Starts_startTestRun) as H.
  unfold Starts_run. destruct (Starts_run_from Starts_startTestRun evs) as [self out].
  cbn [snd _neednewline Starts_startTestRun] in *.
  destruct (_neednewline self); lia.
Qed.

End StartTrackerMore.

(** ** Run driver: when it returns, and what it leaves *)

Section RunDriverMore.

Lemma show_outcome_returns test w :
  well_formed test = true → ∃ w', show_outcome test w = (inl (), w').
Proof.
  unfold well_formed.
  destruct (String.eqb_spec (d_status test) "exists") as [Hs|Hs].
  { intros _. eexists. by apply show_outcome_exists. }
  cbn [orb]. destruct (find_worker test) as [worker|e] eqn:Ew; [|done]. cbn [andb].
  intros [[Hd Hskip]%andb_true_iff _]%andb_true_iff.
  apply bool_decide_eq_true in Hd.
  destruct (String.eqb_spec (cleanup_test_name_default (d_id test))
              "process-returncode") as [Hn|Hn].
  { eexists. by apply show_outcome_returncode. }
  rewrite orb_false_r in Hskip. apply negb_true_iff, String.eqb_neq in Hskip.
  eexists. rewrite (show_outcome_reports test worker) by done.
  unfold print_attachments_raised. rewrite Hd. reflexivity.
Qed.

Lemma Starts_returns ev : no_attachment ev = true → Starts_raised ev = None.
Proof.
  unfold no_attachment, Starts_raised. intros [_ ->]%andb_true_iff.
  by rewrite andb_false_r.
Qed.

Lemma show_outcomes_returns tests w :
  Forall (λ t, well_formed t = true) tests →
  ∃ w', show_outcomes tests w = (inl (), w').
Proof.
  intros H. revert w. induction H as [|test tests Ht _ IH]; intros w;
    cbn [show_outcomes]; [by eexists|].
  unfold mbind, Run_bind.
  destruct (show_outcome_returns test w Ht) as [w1 ->]. apply IH.
Qed.

Lemma gather_test_returns self test :
  well_formed test = true → snd (StreamSummary_gather_test self test) = None.
Proof.
  unfold well_formed, StreamSummary_gather_test, status_in.
  destruct (String.eqb_spec (d_status test) "exists"); [done|]. cbn [orb].
  intros [_ Hst]%andb_true_iff. apply bool_decide_eq_true in Hst.
  destruct (String.eqb_spec (d_status test) "success"); [done|].
  destruct (String.eqb_spec (d_status test) "skip"); [done|].
  destruct (String.eqb_spec (d_status test) "fail"); [done|].
  destruct (String.eqb_spec (d_status test) "xfail"); [done|].
  destruct (String.eqb_spec (d_status test) "uxsuccess"); [done|].
  rewrite bool_decide_eq_true_2; [done|]. set_solver.
Qed.

Lemma gather_all_returns tests self :
  Forall (λ t, well_formed t = true) tests →
  snd (StreamSummary_gather_all self tests) = None.
Proof.
  intros H. revert self. induction H as [|test tests Ht _ IH]; intros self;
    cbn [StreamSummary_gather_all]; [done|].
  pose proof (gather_test_returns self test Ht) as Hg.
  destruct (StreamSummary_gather_test self test) as [self1 [e|]]; [done|]. apply IH.
Qed.

Lemma status_returns obs ev w :
  outcomes obs = s_inprogress (summary obs) →
  no_attachment ev = true →
  Forall (λ t, well_formed t = true)
    (option_list (snd (StreamToDict_status (outcomes obs) ev))) →
  ∃ obs' w', status obs ev w = (None, obs', w').
Proof.
  intros Hinv Hfree Hwf. unfold status, StreamSummary_status.
  rewrite (Starts_returns ev Hfree).
  destruct (Starts_status (starts obs) ev) as [st out].
  destruct (write_all (render <$> out) w) as [r0 w0].
  cbn [summary]. rewrite <- Hinv.
  destruct (StreamToDict_status (outcomes obs) ev) as [m finished]. cbn [snd] in Hwf.
  destruct (show_outcomes_returns _ w0 Hwf) as [w1 ->].
  destruct finished as [test|]; [|by eexists _, _].
  apply Forall_cons in Hwf as [Ht _].
  pose proof (gather_test_returns (with_inprogress (summary obs) m) test Ht) as Hg.
  destruct (StreamSummary_gather_test _ test) as [s e]. cbn in Hg. subst e.
  by eexists _, _.
Qed.

Lemma run_returns evs obs w :
  outcomes obs = s_inprogress (summary obs) →
  Forall (λ ev, no_attachment ev = true) evs →
  Forall (λ t, well_formed t = true) (fst (emitted (outcomes obs) evs)) →
  ∃ obs' w', run obs evs w = (None, obs', w').
Proof.
  revert obs w. induction evs as [|ev evs IH]; intros obs w Hinv Hfree Hwf;
    cbn [run emitted] in *; [by eexists _, _|].
  apply Forall_cons in Hfree as [Hev Hfree].
  destruct (StreamToDict_status (outcomes obs) ev) as [m finished] eqn:Es.
  destruct (emitted m evs) as [l m'] eqn:Ee. cbn [fst] in Hwf.
  apply Forall_app in Hwf as [Hfin Hrest].
  destruct (status_returns obs ev w Hinv Hev) as (obs1 & w1 & E1).
  { by rewrite Es. }
  rewrite E1. pose proof (status_ok _ _ _ _ _ E1 Hinv) as Hstep. rewrite Es in Hstep.
  destruct Hstep as (Ho & Hs & _).
  apply IH; [congruence|done|]. by rewrite Ho, Ee.
Qed.

(** [main] returns, without an exception, for every stream that carries
    no attachment and all of whose dictionaries are well formed: no
    event has a file name or bytes, and each dictionary has a worker
    that resolves, a status the summary has a handler for, and is not a
    skip, which would need its 'reason' attachment, unless its
    normalized name is 'process-returncode'. *)
Theorem main_returns (evs : list Event) (w : World) :
  Forall (λ ev, no_attachment ev = true) evs →
  Forall (λ t, well_formed t = true) (records evs) →
  ∃ r w', main evs w = (inl r, w').
Proof.
  unfold records, main. intros Hfree Hwf.
  destruct (emitted [] evs) as [l m] eqn:Ee.
  apply Forall_app in Hwf as [Hl Hm].
  destruct (run_returns evs startTestRun w eq_refl Hfree) as (obs & w1 & E1).
  { cbn [outcomes startTestRun]. by rewrite Ee. }
  rewrite E1. pose proof (run_ok _ _ _ _ _ E1 eq_refl) as Hrun.
  cbn [outcomes startTestRun] in Hrun. rewrite Ee in Hrun.
  destruct Hrun as (Ho & Hs & _).
  unfold stopTestRun, StreamSummary_stopTestRun. rewrite Hs, Ho.
  destruct (show_outcomes_returns _ w1 Hm) as [w2 ->].
  pose proof (gather_all_returns _ (with_inprogress (summary obs) []) Hm) as Hg.
  destruct (StreamSummary_gather_all _ _) as [s e]. cbn in Hg. subst e.
  by eexists _, _.
Qed.

Lemma main_returns_witness :
  ∃ r w', main [test_a_inprogress; test_a_success] fresh_world = (inl r, w').
Proof.
  apply (main_returns [test_a_inprogress; test_a_success] fresh_world);
    by repeat constructor.
Defined.

Lemma status_tallies obs ev w obs' w' :
  status obs ev w = (None, obs', w') →
  let finished := option_list (snd (StreamToDict_status (outcomes obs) ev)) in
  FAILS w' = FAILS w ++ List.filter counted_fail finished ∧
  bucket_total (RESULTS w')
  = (bucket_total (RESULTS w)
     + length (List.filter (λ t, negb (is_exists t)) finished))%nat.
Proof.
  unfold status. intros E.
  destruct (Starts_raised ev) as [e0|]; [done|].
  destruct (Starts_status (starts obs) ev) as [st out].
  destruct (write_all (render <$> out) w) as [r0 w0] eqn:E0.
  assert (FAILS w0 = FAILS w ∧ RESULTS w0 = RESULTS w) as [Hf Hr]
    by (by injection E0 as _ <-).
  destruct (StreamToDict_status (outcomes obs) ev) as [m finished]. cbn [snd].
  destruct (show_outcomes (option_list finished) w0) as [[[]|e] w1] eqn:E1; [|done].
  destruct (show_outcomes_tallies _ _ _ E1) as [H1 H2].
  destruct (StreamSummary_status _ ev) as [s e]. injection E as -> _ <-.
  by rewrite H1, H2, Hf, Hr.
Qed.

Lemma run_tallies evs obs w obs' w' :
  run obs evs w = (None, obs', w') →
  outcomes obs = s_inprogress (summary obs) →
  let l := fst (emitted (outcomes obs) evs) in
  FAILS w' = FAILS w ++ List.filter counted_fail l ∧
  bucket_total (RESULTS w')
  = (bucket_total (RESULTS w) + length (List.filter (λ t, negb (is_exists t)) l))%nat.
Proof.
  revert obs w. induction evs as [|ev evs IH]; intros obs w; cbn [run emitted].
  { intros [= <- <-] _. cbn. rewrite app_nil_r. split; [done|lia]. }
  destruct (status obs ev w) as [[[e|] obs1] w1] eqn:E1; [done|].
  intros E Hinv. pose proof (status_ok _ _ _ _ _ E1 Hinv) as Hstep.
  pose proof (status_tallies _ _ _ _ _ E1) as Htal.
  destruct (StreamToDict_status (outcomes obs) ev) as [m finished].
  destruct Hstep as (Ho & Hs & _). cbn [snd] in Htal. destruct Htal as [H1 H2].
  assert (outcomes obs1 = s_inprogress (summary obs1)) as Hinv1 by congruence.
  pose proof (IH _ _ E Hinv1) as Hrest. rewrite Ho in Hrest.
  destruct (emitted m evs) as [l m']. cbn [fst] in *.
  destruct Hrest as [H3 H4]. rewrite H3, H4, H1, H2, !List.filter_app, length_app.
  split; [by rewrite app_assoc|lia].
Qed.

(** The tallies of a run that returns, read off the stream: the failure
    list has grown by the dictionaries of the run with status 'fail' and
    a normalized name other than 'process-returncode', in stream order;
    and the bucket sizes have grown, in total, by the number of
    dictionaries whose status is not 'exists', those flushed at the end
    of the stream included. *)
Theorem main_tallies (evs : list Event) (w w' : World) (r : Z) :
  main evs w = (inl r, w') →
  FAILS w' = FAILS w ++ List.filter counted_fail (records evs) ∧
  bucket_total (RESULTS w')
  = (bucket_total (RESULTS w)
     + length (List.filter (λ t, negb (is_exists t)) (records evs)))%nat.
Proof.
  unfold main, records. intros E.
  destruct (run startTestRun evs w) as [[raised obs] w1] eqn:E1.
  destruct (stopTestRun obs w1) as [[raised' obs'] w2] eqn:E2.
  destruct raised' as [e|]; [done|]. destruct raised as [e|]; [done|].
  injection E as _ <-.
  pose proof (run_ok _ _ _ _ _ E1 eq_refl) as Hrun.
  pose proof (run_tallies _ _ _ _ _ E1 eq_refl) as Htal.
  cbn [outcomes startTestRun] in Hrun, Htal.
  destruct (emitted [] evs) as [l m]. cbn [fst] in Htal.
  destruct Hrun as (Ho & _). destruct Htal as [H1 H2].
  unfold stopTestRun in E2. rewrite Ho in E2.
  destruct (show_outcomes (StreamToDict_stopTestRun m) w1) as [[[]|e] w3] eqn:E3;
    [|done].
  destruct (show_outcomes_tallies _ _ _ E3) as [H3 H4].
  destruct (StreamSummary_stopTestRun _) as [s e]. injection E2 as _ _ <-.
  rewrite H3, H4, H1, H2, !List.filter_app, length_app.
  split; [by rewrite app_assoc|lia].
Qed.

Lemma main_tallies_witness :
  let evs := [event (Some "test_a") (Some "inprogress") None None;
              event (Some "test_b") (Some "fail") (Some ["worker-1"]) None] in
  let w' := snd (main evs fresh_world) in
  FAILS w' = [test_of "test_b" "fail" ["worker-1"]] ∧
  bucket_total (RESULTS w') = 2%nat.
Proof.
  intros evs w'. exact (main_tallies evs fresh_world w' 1 eq_refl).
Defined.

End RunDriverMore.

(** ** Name normalizer: both suffixes, and what is kept *)

Section NormalizerMore.

Import PyStr.

Lemma length_cut_le i j s : (i ≤ j)%nat → (String.length (cut i j s) ≤ String.length s)%nat.
Proof. intros. unfold cut. rewrite str_length_app, str_length_take, str_length_drop. lia. Qed.

Lemma strip_span_length o c s : (String.length (strip_span o c s) ≤ String.length s)%nat.
Proof.
  destruct (strip_span_cases o c s) as [->|(i & j & _ & _ & ? & ->)]; [done|].
  apply length_cut_le. lia.
Qed.

(** The normalizer only takes characters away: for every setting of the
    switches its result is no longer than the name, and holds no
    character more often than the name does. *)
Theorem cleanup_test_name_only_removes (name : string) (strip_tags strip_scenarios : bool) :
  (String.length (cleanup_test_name name strip_tags strip_scenarios)
   ≤ String.length name)%nat ∧
  ∀ c, (count c (cleanup_test_name name strip_tags strip_scenarios) ≤ count c name)%nat.
Proof.
  rewrite cleanup_test_name_spans. split; [|intros c].
  - destruct strip_tags, strip_scenarios; cbn [id];
      repeat (etrans; [apply strip_span_length|]); done.
  - destruct strip_tags, strip_scenarios; cbn [id];
      repeat (etrans; [apply strip_span_count|]); done.
Qed.

(** With both switches on, a scenario suffix and a tag suffix are both
    removed, in whichever order they follow a non-empty prefix, as long
    as no delimiter of a rule stands before the span that rule is to
    remove; what lies between the two spans and after them is kept. *)
Theorem cleanup_test_name_both_suffixes (u v m t w : string) :
  u ≠ EmptyString →
  (count "(" u = 0%nat → count ")" (u +:+ v) = 0%nat →
   count "[" (u +:+ v +:+ m) = 0%nat → count "]" (u +:+ v +:+ m +:+ t) = 0%nat →
   cleanup_test_name
     (u +:+ String "(" (v +:+ String ")" (m +:+ String "[" (t +:+ String "]" w))))
     true true = u +:+ m +:+ w) ∧
  (count "[" u = 0%nat → count "]" (u +:+ t) = 0%nat →
   count "(" (u +:+ m) = 0%nat → count ")" (u +:+ m +:+ v) = 0%nat →
   cleanup_test_name
     (u +:+ String "[" (t +:+ String "]" (m +:+ String "(" (v +:+ String ")" w))))
     true true = u +:+ m +:+ w).
Proof.
  intros Hu. rewrite !cleanup_test_name_spans. cbn [id]. split.
  - intros H1 H2 H3 H4. rewrite !count_app in *.
    replace (u +:+ String "(" (v +:+ String ")" (m +:+ String "[" (t +:+ String "]" w))))
      with ((u +:+ String "(" (v +:+ String ")" m)) +:+ String "[" (t +:+ String "]" w))
      by (by rewrite !str_app_assoc, !app_cons, !str_app_assoc, ?app_cons).
    rewrite (strip_span_decomp "[" "]"); [| |rewrite !count_app; cbn|
      rewrite !count_app; cbn; rewrite !count_app; cbn|done].
    + rewrite !str_app_assoc, !app_cons, !str_app_assoc, ?app_cons.
      rewrite (strip_span_decomp "(" ")" u v (m +:+ w)); [done..| |done].
      rewrite count_app. lia.
    + by destruct u.
    + rewrite count_app. cbn. lia.
    + lia.
  - intros H1 H2 H3 H4. rewrite !count_app in *.
    rewrite (strip_span_decomp "[" "]" u t); [|done|done|rewrite count_app; lia|done].
    replace (u +:+ m +:+ String "(" (v +:+ String ")" w))
      with ((u +:+ m) +:+ String "(" (v +:+ String ")" w))
      by (by rewrite !str_app_assoc).
    rewrite (strip_span_decomp "(" ")"); [by rewrite str_app_assoc| | |
      rewrite !count_app; lia|done].
    + by destruct u.
    + rewrite count_app. lia.
Qed.

Lemma cleanup_test_name_both_suffixes_witness :
  cleanup_test_name "test_neg(inv_res_id)[gate,negative]" true true = "test_neg" +:+ "" +:+ ""
  ∧ cleanup_test_name "test_neg[gate,(x)]_v2(inv)" true true = "test_neg" +:+ "_v2" +:+ "".
Proof.
  destruct (cleanup_test_name_both_suffixes "test_neg" "inv_res_id" "" "gate,negative" ""
              ltac:(discriminate)) as [H1 _].
  destruct (cleanup_test_name_both_suffixes "test_neg" "inv" "_v2" "gate,(x)" ""
              ltac:(discriminate)) as [_ H2].
  split; [exact (H1 eq_refl eq_refl eq_refl eq_refl)
         |exact (H2 eq_refl eq_refl eq_refl eq_refl)].
Defined.

End NormalizerMore.

(** ** Duration formatter: reading the string back *)

Section DurationMore.

Import PyFmt.

(** For an end that is not before the start, the duration reads back as
    the elapsed time: the digits before the dot denote whole seconds, the
    six digits after it microseconds, and together they are the
    difference of the two instants. *)
Theorem get_duration_elapsed (s e : datetime) :
  instant s ≤ instant e →
  ∃ whole frac q r,
    get_duration (Some s, Some e) = whole +:+ "." +:+ frac +:+ "s" ∧
    value whole = Some q ∧ value frac = Some r ∧ String.length frac = 6%nat ∧
    q * 1000000 + r = instant e - instant s.
Proof.
  intros Hle. set (d := instant e - instant s).
  pose proof (timedelta_whole_seconds e s) as Hw. fold d in Hw.
  assert (0 ≤ d / 1000000) as Hq by (apply Z.div_pos; lia).
  destruct (pct_0d_micro (d mod 1000000)) as [Hl Hv].
  { apply Z.mod_pos_bound. lia. }
  destruct (digits_spec (d / 1000000) Hq) as [Hdv _].
  exists (digits (d / 1000000)), (pct_0d 6 (d mod 1000000)),
    (d / 1000000), (d mod 1000000).
  split; [|split; [done|split; [done|split; [done|]]]].
  - unfold get_duration. rewrite Hw. unfold pct_d.
    destruct (Z.ltb_spec (d / 1000000) 0); [lia|]. done.
  - pose proof (Z.div_mod d 1000000 ltac:(lia)). lia.
Qed.

Lemma get_duration_elapsed_witness :
  ∃ whole frac q r,
    get_duration (Some at_second_1, Some at_second_2) = whole +:+ "." +:+ frac +:+ "s" ∧
    value whole = Some q ∧ value frac = Some r ∧ String.length frac = 6%nat ∧
    q * 1000000 + r = 1000000.
Proof.
  exact (get_duration_elapsed at_second_1 at_second_2 ltac:(cbn; lia)).
Defined.

(** For an end before the start the string starts with a minus sign,
    and it does not read as a negative decimal: the digits before the dot
    are the whole seconds rounded away from zero, and the six digits
    after it count microseconds forward from there, so that the elapsed
    time is [- q] seconds plus [r] microseconds. *)
Theorem get_duration_negative (s e : datetime) :
  instant e < instant s →
  ∃ whole frac q r,
    get_duration (Some s, Some e) = "-" +:+ whole +:+ "." +:+ frac +:+ "s" ∧
    value whole = Some q ∧ value frac = Some r ∧ String.length frac = 6%nat ∧
    0 < q ∧ - q * 1000000 + r = instant e - instant s.
Proof.
  intros Hlt. set (d := instant e - instant s).
  pose proof (timedelta_whole_seconds e s) as Hw. fold d in Hw.
  assert (d / 1000000 < 0) as Hq by (apply Z.div_lt_upper_bound; lia).
  destruct (pct_0d_micro (d mod 1000000)) as [Hl Hv].
  { apply Z.mod_pos_bound. lia. }
  destruct (digits_spec (- (d / 1000000)) ltac:(lia)) as [Hdv _].
  exists (digits (- (d / 1000000))), (pct_0d 6 (d mod 1000000)),
    (- (d / 1000000)), (d mod 1000000).
  split; [|split; [done|split; [done|split; [done|split; [lia|]]]]].
  - unfold get_duration. rewrite Hw. unfold pct_d.
    destruct (Z.ltb_spec (d / 1000000) 0); [|lia]. done.
  - pose proof (Z.div_mod d 1000000 ltac:(lia)). lia.
Qed.

Lemma get_duration_negative_witness :
  ∃ whole frac q r,
    get_duration (Some at_second_2,
                  Some {| instant := 1500000; isoformat := "1970-01-01T00:00:01.500000+00:00" |})
      = "-" +:+ whole +:+ "." +:+ frac +:+ "s" ∧
    value whole = Some q ∧ value frac = Some r ∧ String.length frac = 6%nat ∧
    0 < q ∧ - q * 1000000 + r = -500000.
Proof.
  exact (get_duration_negative at_second_2
           {| instant := 1500000; isoformat := "1970-01-01T00:00:01.500000+00:00" |}
           ltac:(cbn; lia)).
Defined.

End DurationMore.
